(** * startmon: process/thread start monitor (src/main.c)

    A shallow embedding of the receive pipeline of [main.c]:
    [get_cmdline], [dispatch_nl_cn], [dispatch_nl] and the body of the
    receive loop of [main], followed by the properties of the
    specification that concern them.

    Platform.  The program is Linux only (netlink, /proc).  The embedding
    fixes the x86-64 Linux ABI: LP64, little-endian, plain [char] signed,
    [pid_t] a 32-bit signed [int].  The structure layouts and numeric
    constants come from the kernel's uapi headers that [main.c] includes
    (<linux/netlink.h>, <linux/connector.h>, <linux/cn_proc.h>); they are
    gathered in [Module Uapi]. *)

From Stdlib Require Import String Strings.Byte.
From Stdlib Require Import Numbers.DecimalString.
From Stdlib Require Import ZArith List Lia Bool.
From Stdlib Require NArith DecimalFacts DecimalPos Sorted.
Import ListNotations.
Local Open Scope string_scope.
Local Open Scope list_scope.
Local Open Scope Z_scope.

(* ------------------------------------------------------------------ *)
(** ** Bytes and C characters *)

Module Abi.

(** A byte of memory read as [unsigned char]. *)
Definition byte_val (b : byte) : Z := Z.of_N (Byte.to_N b).

(** A byte of memory read as plain [char].  [signed = true] is the
    x86-64 ABI; [signed = false] is the choice of the ARM and PowerPC
    ABIs. *)
Definition plain_char (signed : bool) (b : byte) : Z :=
  if signed && (128 <=? byte_val b) then byte_val b - 256 else byte_val b.

Definition char_is_signed : bool := true.

Definition char_val (b : byte) : Z := plain_char char_is_signed b.

(** Value of an n-byte little-endian unsigned integer. *)
Fixpoint le_value (bs : list byte) : Z :=
  match bs with
  | [] => 0
  | b :: tl => byte_val b + 256 * le_value tl
  end.

(** Conversion of a 32-bit pattern to [int]. *)
Definition to_int32 (u : Z) : Z :=
  if u <? 2 ^ 31 then u else u - 2 ^ 32.

End Abi.
Import Abi.

(** Bytes of an ASCII literal of the source. *)
Definition lit (s : string) : list byte := list_byte_of_string s.

(** printf's [%d] conversion of an [int]. *)
Definition fmt_d (z : Z) : list byte :=
  lit (NilZero.string_of_int (Z.to_int z)).

(* ------------------------------------------------------------------ *)
(** ** Outcomes: defined results and undefined behaviour *)

Inductive fault : Type :=
| ReadOutOfBounds (off : Z) (len : nat)   (* rcvbuf read outside the allocation *)
| CharReadOutOfBounds (idx : nat)         (* cmdlinebuf read outside the array *)
| CharWriteOutOfBounds (idx : nat)        (* cmdlinebuf write outside the array *)
| Unterminated                            (* %s on an array without a NUL *)
| NoFuel.                                 (* model artefact, shown unreachable *)

Inductive outcome (A : Type) : Type :=
| Done (a : A)
| Undefined (f : fault).
Arguments Done {A} a.
Arguments Undefined {A} f.

Definition obind {A B} (o : outcome A) (k : A -> outcome B) : outcome B :=
  match o with
  | Done a => k a
  | Undefined f => Undefined f
  end.

(* ------------------------------------------------------------------ *)
(** ** The /proc interface as seen through open(2) and read(2) *)

Inductive proc_file : Type :=
| OpenFails                  (* open returns -1 *)
| ReadFails                  (* open succeeds, read returns -1 *)
| Reads (data : list byte).  (* open succeeds, read transfers a prefix of data *)

(** The file system is consulted by path; the first argument counts the
    earlier calls of [get_cmdline], so that an answer may change between
    two lookups of the same path. *)
Definition procfs : Type := nat -> list byte -> proc_file.

(* ------------------------------------------------------------------ *)
(** ** Global variables of main.c *)

Record filter_flags : Type := mkFlags {
  execflag : Z;
  forkflag : Z;
  threadflag : Z
}.

Record globals : Type := mkGlobals {
  procname : list byte;      (* char procname[50], as a C string *)
  cmdlinebuf : list byte;    (* char cmdlinebuf[4096] *)
  bytes : Z;                 (* ssize_t bytes *)
  lookups : nat              (* number of get_cmdline calls so far *)
}.

Definition CMDLINE_SIZE : nat := 4096.

(** Array access with the bounds of the array object. *)
Definition char_at (buf : list byte) (i : nat) : option byte := nth_error buf i.

Definition char_store (buf : list byte) (i : nat) (b : byte) : option (list byte) :=
  if (i <? length buf)%nat then Some (firstn i buf ++ b :: skipn (S i) buf)
  else None.

(** Writing [src] at the start of [buf] (read(2), sprintf). *)
Definition overwrite (src buf : list byte) : list byte :=
  src ++ skipn (length src) buf.

(** The [for] loop of [get_cmdline]: [remain] iterations from index [c]. *)
Fixpoint blank_controls (remain : nat) (c : nat) (buf : list byte)
  : outcome (nat * list byte) :=
  match remain with
  | O => Done (c, buf)
  | S remain' =>
      match char_at buf c with
      | None => Undefined (CharReadOutOfBounds c)
      | Some ch =>
          if char_val ch <? 32 then
            match char_store buf c Byte.x20 with
            | Some buf' => blank_controls remain' (S c) buf'
            | None => Undefined (CharWriteOutOfBounds c)
            end
          else blank_controls remain' (S c) buf
      end
  end.

Definition proc_path (id : Z) : list byte :=
  lit "/proc/" ++ fmt_d id ++ lit "/cmdline".

Definition placeholder : list byte := lit "<N/A>".

Definition get_cmdline (fs : procfs) (id : Z) (gl : globals) : outcome globals :=
  let name := proc_path id in
  let n := S (lookups gl) in
  match fs (lookups gl) name with
  | OpenFails =>
      Done (mkGlobals name (overwrite (placeholder ++ [Byte.x00]) (cmdlinebuf gl))
                      (Z.of_nat (length placeholder)) n)
  | ReadFails =>
      (* bytes = -1: the loop body never runs, then *c = 0 with c = cmdlinebuf *)
      match char_store (cmdlinebuf gl) 0 Byte.x00 with
      | Some buf => Done (mkGlobals name buf (-1) n)
      | None => Undefined (CharWriteOutOfBounds 0)
      end
  | Reads data =>
      let got := firstn CMDLINE_SIZE data in
      let nread := Z.of_nat (length got) in
      obind (blank_controls (Z.to_nat nread) 0 (overwrite got (cmdlinebuf gl)))
        (fun '(c, buf) =>
           match char_store buf c Byte.x00 with
           | Some buf' => Done (mkGlobals name buf' nread n)
           | None => Undefined (CharWriteOutOfBounds c)
           end)
  end.

(** What printf's [%s] prints for a character array. *)
Fixpoint c_string (buf : list byte) : option (list byte) :=
  match buf with
  | [] => None
  | b :: tl =>
      if Byte.eqb b Byte.x00 then Some []
      else option_map (cons b) (c_string tl)
  end.

(* ------------------------------------------------------------------ *)
(** ** Kernel interface: constants, layouts and macros of the uapi headers *)

Module Uapi.

(** <linux/netlink.h> *)
Definition NLMSG_NOOP : Z := 1.
Definition NLMSG_ERROR : Z := 2.
Definition NLMSG_DONE : Z := 3.
Definition NLMSG_OVERRUN : Z := 4.

(** struct nlmsghdr { __u32 nlmsg_len; __u16 nlmsg_type; __u16 nlmsg_flags;
                      __u32 nlmsg_seq; __u32 nlmsg_pid; } *)
Definition sizeof_nlmsghdr : Z := 16.
Definition off_nlmsg_len : Z := 0.
Definition off_nlmsg_type : Z := 4.

(** NLMSG_ALIGN(len) = ((len) + 4U - 1) & ~(4U - 1), in unsigned int. *)
Definition NLMSG_ALIGN (len : Z) : Z :=
  Z.land ((len + 4 - 1) mod 2 ^ 32) (Z.lnot (4 - 1) mod 2 ^ 32).

Definition NLMSG_HDRLEN : Z := NLMSG_ALIGN sizeof_nlmsghdr.

(** <linux/connector.h> *)
Definition CN_IDX_PROC : Z := 1.
Definition CN_VAL_PROC : Z := 1.
Definition CONNECTOR_MAX_MSG_SIZE : Z := 16384.

(** struct cn_msg { struct cb_id { __u32 idx; __u32 val; } id;
                    __u32 seq; __u32 ack; __u16 len; __u16 flags;
                    __u8 data[0]; } *)
Definition off_id_idx : Z := 0.
Definition off_id_val : Z := 4.
Definition off_cn_len : Z := 16.
Definition off_cn_data : Z := 20.

(** <linux/cn_proc.h> *)
Definition PROC_EVENT_FORK : Z := 1.
Definition PROC_EVENT_EXEC : Z := 2.

(** struct proc_event { enum what what; __u32 cpu; __u64 timestamp_ns;
                        union { ... } event_data; }
    fork: parent_pid, parent_tgid, child_pid, child_tgid;
    exec: process_pid, process_tgid; all of type __kernel_pid_t (int). *)
Definition off_what : Z := 0.
Definition off_event_data : Z := 16.
Definition off_fork_parent_pid : Z := off_event_data + 0.
Definition off_fork_parent_tgid : Z := off_event_data + 4.
Definition off_fork_child_pid : Z := off_event_data + 8.
Definition off_fork_child_tgid : Z := off_event_data + 12.
Definition off_exec_process_pid : Z := off_event_data + 0.
Definition off_exec_process_tgid : Z := off_event_data + 4.

End Uapi.
Import Uapi.

(* ------------------------------------------------------------------ *)
(** ** The state of a run and its monad *)

(** [rd_log] is a ghost field: the reads of the receive buffer, oldest
    first, as (offset, size in bytes). *)
Record world : Type := mkWorld {
  gl : globals;
  stdout : list byte;
  rd_log : list (Z * nat)
}.

(** A run either completes or stops at an undefined operation; in both
    cases the world reached is kept. *)
Inductive result (A : Type) : Type :=
| Ok (a : A) (w : world)
| Stuck (f : fault) (w : world).
Arguments Ok {A} a w.
Arguments Stuck {A} f w.

Definition M (A : Type) : Type := world -> result A.

Definition ret {A} (a : A) : M A := fun w => Ok a w.

Definition bind {A B} (m : M A) (k : A -> M B) : M B :=
  fun w => match m w with
           | Ok a w' => k a w'
           | Stuck f w' => Stuck f w'
           end.

Declare Scope run_scope.
Delimit Scope run_scope with run.
Notation "x <- m ;; k" := (bind m (fun x => k))
  (at level 61, m at next level, right associativity) : run_scope.
Notation "m ;; k" := (bind m (fun _ => k))
  (at level 61, right associativity) : run_scope.
Local Open Scope run_scope.

Definition crash {A} (f : fault) : M A := fun w => Stuck f w.

Definition logged (w : world) (rs : list (Z * nat)) : world :=
  mkWorld (gl w) (stdout w) (rd_log w ++ rs).

(** The little-endian value of [n] bytes of the receive buffer [buf] at
    [off]; outside the allocation the read is undefined. *)
Definition rcv_load (buf : list byte) (off : Z) (n : nat) : option Z :=
  if (0 <=? off) && (off + Z.of_nat n <=? Z.of_nat (length buf))
  then Some (le_value (firstn n (skipn (Z.to_nat off) buf)))
  else None.

(** A read, logged whether or not it is defined. *)
Definition rd (buf : list byte) (off : Z) (n : nat) : M Z :=
  fun w => match rcv_load buf off n with
           | Some v => Ok v (logged w [(off, n)])
           | None => Stuck (ReadOutOfBounds off n) (logged w [(off, n)])
           end.

Definition rd_u16 (buf : list byte) (off : Z) : M Z := rd buf off 2.
Definition rd_u32 (buf : list byte) (off : Z) : M Z := rd buf off 4.
Definition rd_pid (buf : list byte) (off : Z) : M Z :=
  u <- rd buf off 4 ;; ret (to_int32 u).

(** Output on the unbuffered stdout. *)
Definition put (bs : list byte) : M unit :=
  fun w => Ok tt (mkWorld (gl w) (stdout w ++ bs) (rd_log w)).

(** The call [get_cmdline(id)], and printf's read of the returned array. *)
Definition call_get_cmdline (fs : procfs) (id : Z) : M unit :=
  fun w => match get_cmdline fs id (gl w) with
           | Done g' => Ok tt (mkWorld g' (stdout w) (rd_log w))
           | Undefined f => Stuck f w
           end.

Definition arg_cmdline : M (list byte) :=
  fun w => match c_string (cmdlinebuf (gl w)) with
           | Some s => Ok s w
           | None => Stuck Unterminated w
           end.

(** printf("<tag> %d %d %s\n", a, b, get_cmdline(id)) and
    printf("Exec - %d %s\n", a, get_cmdline(id)). *)
Definition line2 (tag : string) (a b : Z) (s : list byte) : list byte :=
  lit tag ++ lit " " ++ fmt_d a ++ lit " " ++ fmt_d b ++ lit " " ++ s ++ [Byte.x0a].

Definition line1 (tag : string) (a : Z) (s : list byte) : list byte :=
  lit tag ++ lit " " ++ fmt_d a ++ lit " " ++ s ++ [Byte.x0a].

(* ------------------------------------------------------------------ *)
(** ** dispatch_nl_cn *)

(** The [switch (pe->what)] of [dispatch_nl_cn]; [pe] is the offset of
    the process event in the receive buffer.  The arguments of each
    printf are evaluated left to right; the order is immaterial, since
    [get_cmdline] does not touch the receive buffer. *)
Definition dispatch_proc_event (fl : filter_flags) (fs : procfs)
           (buf : list byte) (pe : Z) : M unit :=
  what <- rd_u32 buf (pe + off_what) ;;
  if what =? PROC_EVENT_FORK then
    if forkflag fl =? 0 then ret tt
    else
      cpid <- rd_pid buf (pe + off_fork_child_pid) ;;
      ctgid <- rd_pid buf (pe + off_fork_child_tgid) ;;
      if cpid =? ctgid then
        a <- rd_pid buf (pe + off_fork_parent_pid) ;;
        b <- rd_pid buf (pe + off_fork_child_pid) ;;
        id <- rd_pid buf (pe + off_fork_child_tgid) ;;
        call_get_cmdline fs id ;;
        s <- arg_cmdline ;;
        put (line2 "Fork" a b s)
      else if threadflag fl =? 0 then ret tt
      else
        a <- rd_pid buf (pe + off_fork_child_tgid) ;;
        b <- rd_pid buf (pe + off_fork_child_pid) ;;
        id <- rd_pid buf (pe + off_fork_child_tgid) ;;
        call_get_cmdline fs id ;;
        s <- arg_cmdline ;;
        put (line2 "Thread" a b s)
  else if what =? PROC_EVENT_EXEC then
    if execflag fl =? 0 then ret tt
    else
      pid <- rd_pid buf (pe + off_exec_process_pid) ;;
      tgid <- rd_pid buf (pe + off_exec_process_tgid) ;;
      if pid =? tgid then
        a <- rd_pid buf (pe + off_exec_process_pid) ;;
        id <- rd_pid buf (pe + off_exec_process_tgid) ;;
        call_get_cmdline fs id ;;
        s <- arg_cmdline ;;
        put (line1 "Exec -" a s)
      else if threadflag fl =? 0 then ret tt
      else
        a <- rd_pid buf (pe + off_exec_process_tgid) ;;
        b <- rd_pid buf (pe + off_exec_process_pid) ;;
        id <- rd_pid buf (pe + off_exec_process_tgid) ;;
        call_get_cmdline fs id ;;
        s <- arg_cmdline ;;
        put (line2 "Exec" a b s)
  else ret tt.

(** [hdr] is the offset of the struct cn_msg in the receive buffer. *)
Definition dispatch_nl_cn (fl : filter_flags) (fs : procfs)
           (buf : list byte) (hdr : Z) : M unit :=
  idx <- rd_u32 buf (hdr + off_id_idx) ;;
  if negb (idx =? CN_IDX_PROC) then ret tt
  else
    val <- rd_u32 buf (hdr + off_id_val) ;;
    if negb (val =? CN_VAL_PROC) then ret tt
    else dispatch_proc_event fl fs buf (hdr + off_cn_data).

(* ------------------------------------------------------------------ *)
(** ** dispatch_nl *)

Definition NLMSG_DATA (nlh : Z) : Z := nlh + NLMSG_HDRLEN.

Definition dispatch_nl (fl : filter_flags) (fs : procfs)
           (buf : list byte) (nlhdr : Z) : M unit :=
  ty <- rd_u16 buf (nlhdr + off_nlmsg_type) ;;
  if (ty =? NLMSG_ERROR) || (ty =? NLMSG_NOOP) then ret tt
  else if ty =? NLMSG_OVERRUN then put (lit "overrun" ++ [Byte.x0a])
  else dispatch_nl_cn fl fs buf (NLMSG_DATA nlhdr).

(* ------------------------------------------------------------------ *)
(** ** The receive loop of main *)

(** NLMSG_OK(nlh, len):
      (len) >= (int)sizeof(struct nlmsghdr) &&
      (nlh)->nlmsg_len >= sizeof(struct nlmsghdr) &&
      (nlh)->nlmsg_len <= (len)
    with [len] the ssize_t [bcount]; && does not evaluate its right
    operand when the left one is false. *)
Definition NLMSG_OK (buf : list byte) (nlh : Z) (len : Z) : M bool :=
  if len >=? sizeof_nlmsghdr then
    l1 <- rd_u32 buf (nlh + off_nlmsg_len) ;;
    if l1 >=? sizeof_nlmsghdr then
      l2 <- rd_u32 buf (nlh + off_nlmsg_len) ;;
      ret (l2 <=? len)
    else ret false
  else ret false.

(** NLMSG_NEXT(nlh, len):
      ((len) -= NLMSG_ALIGN((nlh)->nlmsg_len),
       (struct nlmsghdr * )(((char * )(nlh)) + NLMSG_ALIGN((nlh)->nlmsg_len)))
    The result is the pair of the next header and the new [len]. *)
Definition NLMSG_NEXT (buf : list byte) (nlh : Z) (len : Z) : M (Z * Z) :=
  l1 <- rd_u32 buf (nlh + off_nlmsg_len) ;;
  l2 <- rd_u32 buf (nlh + off_nlmsg_len) ;;
  ret (nlh + NLMSG_ALIGN l2, len - NLMSG_ALIGN l1).

(** for (hdr = rcvbuf; NLMSG_OK(hdr, bcount); hdr = NLMSG_NEXT(hdr, bcount))
      dispatch_nl(hdr);
    [fuel] bounds the number of tests of the loop condition. *)
Fixpoint frame_loop (fuel : nat) (fl : filter_flags) (fs : procfs)
         (buf : list byte) (hdr : Z) (bcount : Z) : M unit :=
  match fuel with
  | O => crash NoFuel
  | S fuel' =>
      ok <- NLMSG_OK buf hdr bcount ;;
      if ok : bool then
        dispatch_nl fl fs buf hdr ;;
        nx <- NLMSG_NEXT buf hdr bcount ;;
        frame_loop fuel' fl fs buf (fst nx) (snd nx)
      else ret tt
  end.

(** What one recvfrom leaves behind: the sender's nl_pid, the returned
    count and the contents of the receive buffer. *)
Record datagram : Type := mkDatagram {
  nl_pid : Z;
  bcount : Z;
  rcvbuf : list byte
}.

Definition RCVBUF_SIZE : Z := 4096 + CONNECTOR_MAX_MSG_SIZE.

(** One turn of [while (1)] after recvfrom has returned. *)
Definition receive_turn (fl : filter_flags) (fs : procfs) (d : datagram) : M unit :=
  if nl_pid d =? 0 then
    frame_loop (S (Z.to_nat (bcount d))) fl fs (rcvbuf d) 0 (bcount d)
  else ret tt.

(* ------------------------------------------------------------------ *)
(** ** Vocabulary of the specification *)

(** The effect of one turn of the [for] loop of [get_cmdline] on the
    character it visits. *)
Definition blank (b : byte) : byte :=
  if char_val b <? 32 then Byte.x20 else b.

(** The decoded process event of the specification's data model, and
    the fields of the receive buffer it stands for. *)
Inductive proc_event : Type :=
| Fork (parent_pid parent_tgid child_pid child_tgid : Z)
| Exec (process_pid process_tgid : Z)
| Ignored (what : Z).

Definition pid_at (buf : list byte) (off : Z) : option Z :=
  option_map to_int32 (rcv_load buf off 4).

Definition decode (buf : list byte) (pe : Z) : option proc_event :=
  match rcv_load buf (pe + off_what) 4 with
  | None => None
  | Some what =>
      if what =? PROC_EVENT_FORK then
        match pid_at buf (pe + off_fork_parent_pid),
              pid_at buf (pe + off_fork_parent_tgid),
              pid_at buf (pe + off_fork_child_pid),
              pid_at buf (pe + off_fork_child_tgid) with
        | Some a, Some b, Some c, Some d => Some (Fork a b c d)
        | _, _, _, _ => None
        end
      else if what =? PROC_EVENT_EXEC then
        match pid_at buf (pe + off_exec_process_pid),
              pid_at buf (pe + off_exec_process_tgid) with
        | Some a, Some b => Some (Exec a b)
        | _, _ => None
        end
      else Some (Ignored what)
  end.

(** The connector channel of the struct cn_msg at [hdr]. *)
Definition channel_at (buf : list byte) (hdr : Z) : option (Z * Z) :=
  match rcv_load buf (hdr + off_id_idx) 4, rcv_load buf (hdr + off_id_val) 4 with
  | Some idx, Some val => Some (idx, val)
  | _, _ => None
  end.

(** The payload length the struct cn_msg at [hdr] declares. *)
Definition declared_len (buf : list byte) (hdr : Z) : option Z :=
  rcv_load buf (hdr + off_cn_len) 2.

Definition world_of {A} (r : result A) : world :=
  match r with
  | Ok _ w => w
  | Stuck _ w => w
  end.

(** The reads of the receive buffer made between two worlds of a run,
    and those made by the switch on the process event of the struct
    cn_msg at [hdr]. *)
Definition new_reads (w w' : world) : list (Z * nat) :=
  skipn (length (rd_log w)) (rd_log w').

Definition payload_reads (fl : filter_flags) (fs : procfs) (buf : list byte)
           (hdr : Z) (w : world) : list (Z * nat) :=
  new_reads w (world_of (dispatch_proc_event fl fs buf (hdr + off_cn_data) w)).

(** The read [r] lies in the bytes [lo .. hi - 1] of the buffer. *)
Definition in_span (lo hi : Z) (r : Z * nat) : Prop :=
  lo <= fst r /\ fst r + Z.of_nat (snd r) <= hi.

Definition reads_within_declared (fl : filter_flags) (fs : procfs)
           (buf : list byte) (hdr : Z) (w : world) : Prop :=
  forall len, declared_len buf hdr = Some len ->
    Forall (in_span (hdr + off_cn_data) (hdr + off_cn_data + len))
           (payload_reads fl fs buf hdr w).

(** The number of payload bytes the switch touches: the discriminant
    alone, or the event up to child_tgid (Fork) or process_tgid (Exec)
    when the flag of the event is set. *)
Definition payload_need (fl : filter_flags) (buf : list byte) (pe : Z) : Z :=
  match rcv_load buf (pe + off_what) 4 with
  | Some what =>
      if what =? PROC_EVENT_FORK then
        if forkflag fl =? 0 then 4 else off_fork_child_tgid + 4
      else if what =? PROC_EVENT_EXEC then
        if execflag fl =? 0 then 4 else off_exec_process_tgid + 4
      else 4
  | None => 4
  end.

(** The reads the switch makes for a decoded event at [pe], in order. *)
Definition event_reads (fl : filter_flags) (pe : Z) (ev : proc_event)
  : list (Z * nat) :=
  (pe + off_what, 4%nat) ::
  match ev with
  | Fork _ _ cpid ctgid =>
      if forkflag fl =? 0 then []
      else
        [(pe + off_fork_child_pid, 4%nat); (pe + off_fork_child_tgid, 4%nat)]
        ++ (if cpid =? ctgid then
              [(pe + off_fork_parent_pid, 4%nat); (pe + off_fork_child_pid, 4%nat);
               (pe + off_fork_child_tgid, 4%nat)]
            else if threadflag fl =? 0 then []
            else
              [(pe + off_fork_child_tgid, 4%nat); (pe + off_fork_child_pid, 4%nat);
               (pe + off_fork_child_tgid, 4%nat)])
  | Exec pid tgid =>
      if execflag fl =? 0 then []
      else
        [(pe + off_exec_process_pid, 4%nat); (pe + off_exec_process_tgid, 4%nat)]
        ++ (if pid =? tgid then
              [(pe + off_exec_process_pid, 4%nat); (pe + off_exec_process_tgid, 4%nat)]
            else if threadflag fl =? 0 then []
            else
              [(pe + off_exec_process_tgid, 4%nat); (pe + off_exec_process_pid, 4%nat);
               (pe + off_exec_process_tgid, 4%nat)])
  | Ignored _ => []
  end.

(** The read [r] is a read of four bytes: of the discriminant, or within
    event_data up to the last field the event needs. *)
Definition field_read (fl : filter_flags) (buf : list byte) (pe : Z)
           (r : Z * nat) : Prop :=
  snd r = 4%nat
  /\ (fst r = pe + off_what
      \/ (pe + off_event_data <= fst r
          /\ fst r + 4 <= pe + payload_need fl buf pe)).

(** All reads of the buffer made by [m] satisfy [P]. *)
Definition reads_in (P : Z * nat -> Prop) {A} (m : M A) : Prop :=
  forall w, exists new,
    rd_log (world_of (m w)) = rd_log w ++ new /\ Forall P new.

(** Worlds and results that differ at most in the ghost log. *)
Definition same_visible (w1 w2 : world) : Prop :=
  gl w1 = gl w2 /\ stdout w1 = stdout w2.

Definition similar {A} (r1 r2 : result A) : Prop :=
  match r1, r2 with
  | Ok a1 w1, Ok a2 w2 => a1 = a2 /\ same_visible w1 w2
  | Stuck f1 w1, Stuck f2 w2 => f1 = f2 /\ same_visible w1 w2
  | _, _ => False
  end.

Definition oblivious {A} (m : M A) : Prop :=
  forall w1 w2, same_visible w1 w2 -> similar (m w1) (m w2).

(** The frame iterator of the specification.  A frame at [pos], with
    [remain] bytes left, is valid when a header fits in the remaining
    bytes and its declared total length [len] is at least the header
    size and at most [remain]; the walk visits valid frames, steps by
    the aligned length, and ends at the first position without a valid
    frame. *)
Definition frame_ok (buf : list byte) (pos remain len : Z) : Prop :=
  sizeof_nlmsghdr <= remain
  /\ rcv_load buf (pos + off_nlmsg_len) 4 = Some len
  /\ sizeof_nlmsghdr <= len <= remain.

Inductive frame_walk (buf : list byte) : Z -> Z -> list Z -> Prop :=
| walk_stop (pos remain : Z) :
    (forall len, ~ frame_ok buf pos remain len) ->
    frame_walk buf pos remain []
| walk_next (pos remain len : Z) (rest : list Z) :
    frame_ok buf pos remain len ->
    frame_walk buf (pos + NLMSG_ALIGN len) (remain - NLMSG_ALIGN len) rest ->
    frame_walk buf pos remain (pos :: rest).

Fixpoint for_each (body : Z -> M unit) (frames : list Z) : M unit :=
  match frames with
  | [] => ret tt
  | h :: rest => body h ;; for_each body rest
  end.

(** What malloc and recvfrom guarantee about a datagram: the buffer has
    the allocated size and the count is -1 or at most that size. *)
Definition received (d : datagram) : Prop :=
  Z.of_nat (length (rcvbuf d)) = RCVBUF_SIZE /\ -1 <= bcount d <= RCVBUF_SIZE.

(* ------------------------------------------------------------------ *)
(** ** Concrete data used in the examples *)

(** Little-endian encoding, to write frames down. *)
Fixpoint le_bytes (n : nat) (z : Z) : list byte :=
  match n with
  | O => []
  | S n' =>
      match Byte.of_N (Z.to_N (z mod 256)) with
      | Some b => b :: le_bytes n' (z / 256)
      | None => []
      end
  end.

Definition enc_nlmsghdr (len ty : Z) : list byte :=
  le_bytes 4 len ++ le_bytes 2 ty ++ le_bytes 2 0 ++ le_bytes 4 0 ++ le_bytes 4 0.

Definition enc_cn_msg (idx val len : Z) : list byte :=
  le_bytes 4 idx ++ le_bytes 4 val ++ le_bytes 4 0 ++ le_bytes 4 0
  ++ le_bytes 2 len ++ le_bytes 2 0.

(** A 40-byte struct proc_event with four identifiers in event_data. *)
Definition enc_proc_event (what a b c d : Z) : list byte :=
  le_bytes 4 what ++ le_bytes 4 0 ++ le_bytes 8 0
  ++ le_bytes 4 a ++ le_bytes 4 b ++ le_bytes 4 c ++ le_bytes 4 d
  ++ le_bytes 8 0.

(** A complete frame as the kernel sends it (76 bytes). *)
Definition enc_frame (ty idx val what a b c d : Z) : list byte :=
  enc_nlmsghdr 76 ty ++ enc_cn_msg idx val 40 ++ enc_proc_event what a b c d.

(** The receive buffer holding [bs] at its start, zero elsewhere. *)
Definition in_rcvbuf (bs : list byte) : list byte :=
  bs ++ repeat Byte.x00 (Z.to_nat RCVBUF_SIZE - length bs).

Definition zero_buf : list byte := repeat Byte.x00 CMDLINE_SIZE.
Definition init_globals : globals := mkGlobals [] zero_buf 0 0.

Definition init_world : world := mkWorld init_globals [] [].

Definition stdout_of {A} (r : result A) : option (list byte) :=
  match r with
  | Ok _ w => Some (stdout w)
  | Stuck _ _ => None
  end.

Definition fs_const (f : proc_file) : procfs := fun _ _ => f.

Definition demo_raw : list byte :=
  lit "ab" ++ [Byte.x00] ++ lit "cd" ++ [Byte.x01] ++ lit "ef".

Definition cmdline_of (o : outcome globals) : option (list byte) :=
  match o with
  | Done gl => c_string (cmdlinebuf gl)
  | Undefined _ => None
  end.

Definition worker_raw : list byte :=
  lit "worker" ++ [Byte.x00] ++ lit "--id" ++ [Byte.x00] ++ lit "1".

Definition worker_fs : procfs := fs_const (Reads worker_raw).

Definition worker_globals : globals :=
  Eval vm_compute in
    match get_cmdline worker_fs 20 init_globals with
    | Done g => g
    | Undefined _ => init_globals
    end.

Definition fork_only : filter_flags := mkFlags 0 1 0.
Definition exec_only : filter_flags := mkFlags 1 0 0.

(** Datagrams: a Fork event; an Exec event; an overrun notice; an
    overrun notice, a Fork event and a header whose declared length
    exceeds what is left; a connector message that declares a payload of
    four bytes. *)
Definition fork_buf : list byte :=
  in_rcvbuf (enc_frame NLMSG_DONE 1 1 PROC_EVENT_FORK 10 10 20 20).


Definition overrun_buf : list byte :=
  in_rcvbuf (enc_nlmsghdr 16 NLMSG_OVERRUN).

Definition mixed_buf : list byte :=
  in_rcvbuf (enc_nlmsghdr 16 NLMSG_OVERRUN
             ++ enc_frame NLMSG_DONE 1 1 PROC_EVENT_FORK 10 10 20 20
             ++ enc_nlmsghdr 200 NLMSG_OVERRUN).

Definition short_buf : list byte :=
  in_rcvbuf (enc_nlmsghdr 40 NLMSG_DONE ++ enc_cn_msg 1 1 4
             ++ le_bytes 4 PROC_EVENT_FORK).

(** A thread creation (child_pid 21 in thread group 20) and an exec by a
    thread other than the leader (pid 21, tgid 20); the flag settings
    that let them through; a /proc whose cmdline files hold 4096 bytes. *)
(** A connector message that declares a payload of sixteen bytes (the
    head of a struct proc_event, without event_data), followed by the
    header of a no-op frame. *)
Definition head_only_buf : list byte :=
  in_rcvbuf (enc_nlmsghdr 52 NLMSG_DONE ++ enc_cn_msg 1 1 16
             ++ le_bytes 4 PROC_EVENT_FORK ++ le_bytes 4 0 ++ le_bytes 8 0
             ++ enc_nlmsghdr 16 NLMSG_NOOP).

(** A frame of 40 bytes with a Fork event of which only the discriminant
    is inside the frame, followed by a header that declares 200 bytes
    where 28 are left. *)
Definition cut_buf : list byte :=
  in_rcvbuf (enc_nlmsghdr 40 NLMSG_DONE ++ enc_cn_msg 1 1 4
             ++ le_bytes 4 PROC_EVENT_FORK
             ++ le_bytes 4 200 ++ le_bytes 2 NLMSG_DONE ++ le_bytes 2 0
             ++ le_bytes 4 0 ++ le_bytes 4 10
             ++ le_bytes 4 0 ++ le_bytes 4 20 ++ le_bytes 4 20).

Definition cut_datagram : datagram := mkDatagram 0 68 cut_buf.





(* ------------------------------------------------------------------ *)
(** ** The start of main: program name, options, subscription *)

(** strrchr(s, c) for a character [c] other than NUL, on the characters
    of the C string [s]: the part of [s] from the last [c] on. *)
Fixpoint strrchr (s : list byte) (c : byte) : option (list byte) :=
  match s with
  | [] => None
  | b :: tl =>
      match strrchr tl c with
      | Some r => Some r
      | None => if Byte.eqb b c then Some s else None
      end
  end.

(** called = strrchr(argv[0], '/'); if (!called) called = argv[0]; *)
Definition called_of (argv0 : list byte) : list byte :=
  match strrchr argv0 "/"%byte with
  | Some r => r
  | None => argv0
  end.

(** The start of the program either goes on, or calls exit; [err] is
    what main.c itself has written to stderr so far. *)
Inductive started (A : Type) : Type :=
| Proceeds (a : A) (err : list byte)
| Exits (status : Z) (err : list byte).
Arguments Proceeds {A} a err.
Arguments Exits {A} status err.

Definition nl : list byte := [Byte.x0a].

(** void usage(char *arg0) *)
Definition usage {A} (arg0 : list byte) (err : list byte) : started A :=
  Exits 1 (err ++ lit "Usage:" ++ nl ++ lit "  " ++ arg0
               ++ lit " [-eft] [--exec] [--fork] [--thread]" ++ nl ++ nl
               ++ lit "Specify at least '--exec' or '--fork'" ++ nl).

(** printf's [%c] conversion of an int: the character (unsigned char) c. *)
Definition fmt_c (c : Z) : list byte :=
  match Byte.of_N (Z.to_N (c mod 256)) with
  | Some b => [b]
  | None => []
  end.

Definition opt_e : Z := byte_val "e"%byte.
Definition opt_f : Z := byte_val "f"%byte.
Definition opt_h : Z := byte_val "h"%byte.
Definition opt_t : Z := byte_val "t"%byte.

(** The while loop over getopt_long.  [opts] lists the values that the
    successive calls of getopt_long return; behind the end of the list
    the call returns -1.  The messages that getopt_long itself prints
    are not part of [err]. *)
Fixpoint option_loop (called : list byte) (opts : list Z)
         (fl : filter_flags) (err : list byte) : started filter_flags :=
  match opts with
  | [] => Proceeds fl err
  | opt :: rest =>
      if opt =? -1 then Proceeds fl err
      else if opt =? opt_e then
        option_loop called rest (mkFlags 1 (forkflag fl) (threadflag fl)) err
      else if opt =? opt_f then
        option_loop called rest (mkFlags (execflag fl) 1 (threadflag fl)) err
      else if opt =? opt_t then
        option_loop called rest (mkFlags (execflag fl) (forkflag fl) 1) err
      else
        usage called
          (if opt =? opt_h then err
           else err ++ called ++ lit ": Invalid option '" ++ fmt_c opt
                    ++ lit "' !" ++ nl)
  end.

Definition no_flags : filter_flags := mkFlags 0 0 0.

(** Lines 149 to 177 of main: the name, the options, the check of the
    mode. *)
Definition main_options (argv0 : list byte) (opts : list Z) : started filter_flags :=
  let called := called_of argv0 in
  match option_loop called opts no_flags [] with
  | Proceeds fl err =>
      if (execflag fl =? 0) && (forkflag fl =? 0) then
        usage called (err ++ called ++ lit ": Missing required mode option!" ++ nl)
      else Proceeds fl err
  | Exits st err => Exits st err
  end.

(** <linux/cn_proc.h>: enum proc_cn_mcast_op, 4 bytes. *)
Definition PROC_CN_MCAST_LISTEN : Z := 1.
Definition sizeof_cnop : Z := 4.
Definition sizeof_cn_msg : Z := 20.

(** NLMSG_LENGTH(len) = (len) + NLMSG_HDRLEN *)
Definition NLMSG_LENGTH (len : Z) : Z := len + NLMSG_HDRLEN.

(** The objects of the stack frame as they lie in memory. *)
Definition nlmsghdr_image (len ty flags seq pid : Z) : list byte :=
  le_bytes 4 len ++ le_bytes 2 ty ++ le_bytes 2 flags ++ le_bytes 4 seq
  ++ le_bytes 4 pid.

Definition cn_msg_image (idx val seq ack len flags : Z) : list byte :=
  le_bytes 4 idx ++ le_bytes 4 val ++ le_bytes 4 seq ++ le_bytes 4 ack
  ++ le_bytes 2 len ++ le_bytes 2 flags.

(** The four elements of iov[] handed to writev; [padding] is the
    content of the uninitialised array char padding[16]. *)
Definition subscription_iov (mypid : Z) (padding : list byte) : list (list byte) :=
  [ nlmsghdr_image (NLMSG_LENGTH (sizeof_cn_msg + sizeof_cnop)) NLMSG_DONE 0 0 mypid;
    firstn (Z.to_nat (NLMSG_LENGTH 0 - sizeof_nlmsghdr)) padding;
    cn_msg_image CN_IDX_PROC CN_VAL_PROC 0 0 sizeof_cnop 0;
    le_bytes 4 PROC_CN_MCAST_LISTEN ].

Definition subscription (mypid : Z) (padding : list byte) : list byte :=
  concat (subscription_iov mypid padding).

(** What the system calls of the start answer. *)
Record os_answers : Type := mkOs {
  socket_ret : Z;             (* socket(): descriptor or -1 *)
  getpid_ret : Z;             (* getpid() *)
  bind_ret : Z;               (* bind(): 0 or -1 *)
  writev_ret : Z;             (* writev(): count or -1 *)
  malloc_null : bool;         (* malloc() returned NULL *)
  strerror_text : list byte;  (* the text perror appends for errno *)
  padding_content : list byte (* what char padding[16] happens to hold *)
}.

(** perror(s); exit(1); *)
Definition perror_exit {A} (os : os_answers) (msg : string) (err : list byte) : started A :=
  Exits 1 (err ++ lit msg ++ lit ": " ++ strerror_text os ++ nl).

(** What the start hands to the receive loop. *)
Record launch : Type := mkLaunch {
  launch_flags : filter_flags;
  bound_pid : Z;              (* nladdr.nl_pid at bind *)
  bound_groups : Z;           (* nladdr.nl_groups at bind *)
  request : list byte         (* the bytes given to writev *)
}.

(** main up to the receive loop. *)
Definition main_start (argv0 : list byte) (opts : list Z) (os : os_answers)
  : started launch :=
  match main_options argv0 opts with
  | Exits st err => Exits st err
  | Proceeds fl err =>
      if socket_ret os =? -1 then
        perror_exit os "Unable to open a netlink socket!" err
      else
        let mypid := getpid_ret os in
        if negb (bind_ret os =? 0) then
          perror_exit os "Unable to bind to the process connector!" err
        else if writev_ret os =? -1 then
          perror_exit os "Unable to listen to the process connector!" err
        else if malloc_null os then
          perror_exit os "Unable to allocate a receive buffer!" err
        else
          Proceeds (mkLaunch fl (mypid mod 2 ^ 32) CN_IDX_PROC
                             (subscription mypid (padding_content os))) err
  end.

(** The values that getopt_long returns before its first -1. *)
Fixpoint until_end (opts : list Z) : list Z :=
  match opts with
  | [] => []
  | o :: rest => if o =? -1 then [] else o :: until_end rest
  end.

Definition is_mode (o : Z) : bool :=
  (o =? opt_e) || (o =? opt_f) || (o =? opt_t).

(** The first value that is none of 'e', 'f' and 't'. *)
Definition first_other (given : list Z) : option Z :=
  find (fun o => negb (is_mode o)) given.

(** The value of the flag of option [o]: 1 if it was given, else 0. *)
Definition seen (o : Z) (given : list Z) : Z :=
  if existsb (Z.eqb o) given then 1 else 0.

Definition usage_text (arg0 : list byte) : list byte :=
  lit "Usage:" ++ nl ++ lit "  " ++ arg0
  ++ lit " [-eft] [--exec] [--fork] [--thread]" ++ nl ++ nl
  ++ lit "Specify at least '--exec' or '--fork'" ++ nl.

Definition invalid_text (called : list byte) (o : Z) : list byte :=
  called ++ lit ": Invalid option '" ++ fmt_c o ++ lit "' !" ++ nl.

Definition missing_text (called : list byte) : list byte :=
  called ++ lit ": Missing required mode option!" ++ nl.

(** The receive loop over the datagrams that arrive, one turn each. *)
Fixpoint receive_all (fl : filter_flags) (fs : procfs) (ds : list datagram) : M unit :=
  match ds with
  | [] => ret tt
  | d :: rest => receive_turn fl fs d ;; receive_all fl fs rest
  end.

(** What a lookup returns when it is defined.  The string depends on
    the answer of the file system alone, not on what the array held
    before. *)
Definition lookup_string (f : proc_file) : list byte :=
  match f with
  | OpenFails => placeholder
  | ReadFails => []
  | Reads data => map blank data
  end.

(** A run from [w] satisfies [Q] if it completes and [F] if it stops
    at an undefined operation. *)
Definition run_sat {A} (m : M A) (w : world)
           (Q : A -> world -> Prop) (F : fault -> world -> Prop) : Prop :=
  match m w with
  | Ok a w' => Q a w'
  | Stuck f w' => F f w'
  end.

Definition any_fault : fault -> world -> Prop := fun _ _ => True.

(** Between [w] and [w'] the receive buffer was read only within the
    bytes [lo .. hi - 1]. *)
Definition reads_span (lo hi : Z) (w w' : world) : Prop :=
  exists new, rd_log w' = rd_log w ++ new /\ Forall (in_span lo hi) new.

(** The undefined operations a dispatch can run into: the store behind
    the end of cmdlinebuf, and a read of the receive buffer, within
    [lo .. hi - 1], that leaves the allocation. *)
Definition tame_fault (buf : list byte) (lo hi : Z) (f : fault) : Prop :=
  f = CharWriteOutOfBounds CMDLINE_SIZE
  \/ exists off n, f = ReadOutOfBounds off n
                   /\ rcv_load buf off n = None
                   /\ in_span lo hi (off, n).

(** The bytes of a frame that its dispatch may touch: the header, the
    connector header and the event up to child_tgid. *)
Definition FRAME_REACH : Z := NLMSG_HDRLEN + off_cn_data + off_fork_child_tgid + 4.

(** The position at which a walk over [frames] from [pos] ends. *)
Fixpoint walk_end (buf : list byte) (pos : Z) (frames : list Z) : Z :=
  match frames with
  | [] => pos
  | h :: rest =>
      match rcv_load buf (h + off_nlmsg_len) 4 with
      | Some len => walk_end buf (h + NLMSG_ALIGN len) rest
      | None => pos
      end
  end.

(** A read of the receive loop: within the reach of a frame it
    dispatches, or the test of nlmsg_len at the position [stop]. *)
Definition frame_read (frames : list Z) (stop : Z) (r : Z * nat) : Prop :=
  (exists h, In h frames /\ in_span h (h + FRAME_REACH) r)
  \/ r = (stop + off_nlmsg_len, 4%nat).

(** "The rest of the datagram is discarded without being interpreted":
    of the bytes from the position where the walk ends, a turn of the
    loop reads nothing but the nlmsg_len it tests there. *)
Definition rest_discarded (fl : filter_flags) (fs : procfs) (d : datagram)
           (w : world) : Prop :=
  forall frames,
    frame_walk (rcvbuf d) 0 (bcount d) frames ->
    Forall (fun r => fst r + Z.of_nat (snd r) <= walk_end (rcvbuf d) 0 frames
                     \/ r = (walk_end (rcvbuf d) 0 frames + off_nlmsg_len, 4%nat))
           (new_reads w (world_of (receive_turn fl fs d w))).

(** The frame at [a] ends, by its declared length, before [b]. *)
Definition ends_before (buf : list byte) (a b : Z) : Prop :=
  exists len, rcv_load buf (a + off_nlmsg_len) 4 = Some len
              /\ sizeof_nlmsghdr <= len /\ a + len <= b.

(** The bytes that the datagrams of a sequence bring. *)
Definition total_received (ds : list datagram) : Z :=
  fold_right (fun d acc => Z.max 0 (bcount d) + acc) 0 ds.

(** A byte that is no control character, and a line of output: such
    bytes followed by the newline. *)
Definition clean (b : byte) : Prop := 32 <= byte_val b.

Definition record_line (l : list byte) : Prop :=
  exists body, l = body ++ nl /\ Forall clean body.

(** The array cmdlinebuf has its declared size. *)
Definition buf_ok (w : world) : Prop :=
  length (cmdlinebuf (gl w)) = CMDLINE_SIZE.

(** What the dispatch of one frame may do to the world: print at most
    one line, and call get_cmdline once if it prints a record and not at
    all otherwise. *)
Definition frame_effect (w w' : world) : Prop :=
  buf_ok w' /\
  exists lines,
    (length lines <= 1)%nat
    /\ Forall record_line lines
    /\ stdout w' = stdout w ++ concat lines
    /\ (gl w' = gl w
        \/ (lookups (gl w') = S (lookups (gl w)) /\ lines <> [])).

(** The text before the command line in the record of an event. *)
Definition record_head (head : list byte) : Prop :=
  exists a b : Z,
    head = lit "Fork " ++ fmt_d a ++ lit " " ++ fmt_d b ++ lit " "
    \/ head = lit "Thread " ++ fmt_d a ++ lit " " ++ fmt_d b ++ lit " "
    \/ head = lit "Exec - " ++ fmt_d a ++ lit " "
    \/ head = lit "Exec " ++ fmt_d a ++ lit " " ++ fmt_d b ++ lit " ".

(** The three things the dispatch of one frame can have done when it
    completes: nothing; the overrun line, without a call of get_cmdline;
    one call of get_cmdline and the record of an event with the string
    that call left in cmdlinebuf. *)
Definition dispatch_outcome (fs : procfs) (w w' : world) : Prop :=
  (gl w' = gl w /\ stdout w' = stdout w)
  \/ (gl w' = gl w /\ stdout w' = stdout w ++ lit "overrun" ++ nl)
  \/ (exists id head s,
        get_cmdline fs id (gl w) = Done (gl w')
        /\ lookups (gl w') = S (lookups (gl w))
        /\ c_string (cmdlinebuf (gl w')) = Some s
        /\ s = lookup_string (fs (lookups (gl w)) (proc_path id))
        /\ record_head head
        /\ Forall clean (head ++ s)
        /\ stdout w' = stdout w ++ head ++ s ++ nl).

(** What a number of turns may do: print whole lines, with at most one
    call of get_cmdline for each. *)
Definition lines_effect (w w' : world) (lines : list (list byte)) : Prop :=
  buf_ok w'
  /\ Forall record_line lines
  /\ stdout w' = stdout w ++ concat lines
  /\ (lookups (gl w) <= lookups (gl w') <= lookups (gl w) + length lines)%nat.

(** Worlds and data for the further properties at concrete inputs. *)
Definition exit_buf : list byte :=
  in_rcvbuf (enc_frame NLMSG_DONE 1 1 2147483648 20 20 0 0).

Definition fork_world : world :=
  Eval vm_compute in world_of (dispatch_nl fork_only worker_fs fork_buf 0 init_world).

Definition two_datagrams : list datagram :=
  [mkDatagram 0 108 mixed_buf; mkDatagram 4242 76 fork_buf].

Definition two_world : world :=
  Eval vm_compute in world_of (receive_all fork_only worker_fs two_datagrams init_world).

Definition lowest_pid : Z := - 2147483648.

Definition lowest_globals : globals :=
  Eval vm_compute in
    match get_cmdline (fs_const OpenFails) lowest_pid init_globals with
    | Done g => g
    | Undefined _ => init_globals
    end.

(* ------------------------------------------------------------------ *)
(** * Examples *)

Example demo_cmdline :
  cmdline_of (get_cmdline (fs_const (Reads demo_raw)) 20 init_globals)
  = Some (lit "ab cd ef").
Proof. vm_compute. reflexivity. Qed.

Example demo_path : proc_path 20 = lit "/proc/20/cmdline".
Proof. vm_compute. reflexivity. Qed.

Example demo_neg : fmt_d (-7) = lit "-7".
Proof. vm_compute. reflexivity. Qed.

Example demo_fork :
  stdout_of (receive_turn fork_only worker_fs (mkDatagram 0 76 fork_buf) init_world)
  = Some (lit "Fork 10 20 worker --id 1" ++ [Byte.x0a]).
Proof. vm_compute. reflexivity. Qed.

Example demo_zero : fmt_d 0 = lit "0".
Proof. vm_compute. reflexivity. Qed.

(** Two frames are dispatched; the third declares 200 bytes where 16
    remain, and the loop ends without a word. *)
Example demo_mixed :
  stdout_of (receive_turn fork_only worker_fs (mkDatagram 0 108 mixed_buf) init_world)
  = Some (lit "overrun" ++ [Byte.x0a] ++ lit "Fork 10 20 worker --id 1" ++ [Byte.x0a]).
Proof. vm_compute. reflexivity. Qed.

(** The kernel ends the command line with a NUL, which comes out as a
    trailing space. *)
Example demo_trailing_nul :
  cmdline_of (get_cmdline (fs_const (Reads (lit "sh" ++ [Byte.x00]))) 20 init_globals)
  = Some (lit "sh ").
Proof. vm_compute. reflexivity. Qed.

(** A frame that declares four bytes of payload, under forkflag: the
    fields of a Fork event are taken from the bytes behind the frame. *)
Example demo_short_payload :
  stdout_of (receive_turn fork_only (fs_const OpenFails) (mkDatagram 0 40 short_buf)
               init_world)
  = Some (lit "Fork 0 0 <N/A>" ++ [Byte.x0a]).
Proof. vm_compute. reflexivity. Qed.

(* ------------------------------------------------------------------ *)
(** * Properties of get_cmdline *)

Section Blanking.

Lemma char_at_middle (pre post : list byte) (a : byte) :
  char_at (pre ++ a :: post) (length pre) = Some a.
Proof.
  unfold char_at. rewrite nth_error_app2 by lia.
  now rewrite Nat.sub_diag.
Qed.

Lemma char_store_middle (pre post : list byte) (a b : byte) :
  char_store (pre ++ a :: post) (length pre) b = Some (pre ++ b :: post).
Proof.
  unfold char_store.
  assert (Hlt : (length pre <? length (pre ++ a :: post))%nat = true).
  { apply Nat.ltb_lt. rewrite length_app. simpl. lia. }
  rewrite Hlt. f_equal.
  assert (Hf : firstn (length pre) (pre ++ a :: post) = pre).
  { rewrite firstn_app, Nat.sub_diag, firstn_all. simpl. apply app_nil_r. }
  assert (Hs : skipn (S (length pre)) (pre ++ a :: post) = post).
  { rewrite skipn_app, skipn_all2 by lia.
    replace (S (length pre) - length pre)%nat with 1%nat by lia. reflexivity. }
  now rewrite Hf, Hs.
Qed.

Lemma char_store_end (buf : list byte) (b : byte) :
  char_store buf (length buf) b = None.
Proof. unfold char_store. now rewrite Nat.ltb_irrefl. Qed.

(** The loop blanks exactly the [remain] characters it walks over and
    leaves [c] just behind them. *)
Lemma blank_controls_run (mid pre post : list byte) :
  blank_controls (length mid) (length pre) (pre ++ mid ++ post)
  = Done ((length pre + length mid)%nat, pre ++ map blank mid ++ post).
Proof.
  revert pre. induction mid as [|a mid IH]; intro pre; simpl.
  - now rewrite Nat.add_0_r.
  - rewrite char_at_middle, char_store_middle.
    assert (Hnext : forall x,
      blank_controls (length mid) (S (length pre)) (pre ++ x :: mid ++ post)
      = Done ((length pre + S (length mid))%nat, pre ++ x :: map blank mid ++ post)).
    { intro x.
      replace (S (length pre)) with (length (pre ++ [x]))
        by (rewrite length_app; simpl; lia).
      replace (pre ++ x :: mid ++ post) with ((pre ++ [x]) ++ mid ++ post)
        by (now rewrite <- app_assoc).
      rewrite IH, length_app, <- app_assoc. simpl.
      do 2 f_equal. lia. }
    unfold blank at 1. destruct (char_val a <? 32); apply Hnext.
Qed.

Lemma blank_not_nul (b : byte) : Byte.eqb (blank b) Byte.x00 = false.
Proof. destruct b; reflexivity. Qed.

Lemma c_string_blanked (s post : list byte) :
  c_string (map blank s ++ Byte.x00 :: post) = Some (map blank s).
Proof.
  induction s as [|a s IH]; simpl.
  - reflexivity.
  - now rewrite blank_not_nul, IH.
Qed.

(** Which bytes the comparison [*c < 32] selects, for either signedness
    of plain char. *)
Lemma plain_char_lt_32 (signed : bool) (b : byte) :
  plain_char signed b < 32 <->
  byte_val b < 32 \/ (signed = true /\ 128 <= byte_val b).
Proof.
  unfold plain_char.
  destruct signed; simpl.
  - destruct (128 <=? byte_val b) eqn:E.
    + apply Z.leb_le in E.
      assert (byte_val b < 256).
      { unfold byte_val. pose proof (Byte.to_N_bounded b). lia. }
      split; [intros _; right; split; [reflexivity | lia] | lia].
    + apply Z.leb_gt in E. split; [intro; left; lia | intros [?|[_ ?]]; lia].
  - split; [intro; now left | intros [?|[? _]]; [lia | discriminate]].
Qed.

Lemma blank_cases (b : byte) :
  (byte_val b < 32 \/ 128 <= byte_val b -> blank b = Byte.x20) /\
  (32 <= byte_val b < 128 -> blank b = b).
Proof.
  unfold blank, char_val.
  pose proof (plain_char_lt_32 char_is_signed b) as H.
  destruct (plain_char char_is_signed b <? 32) eqn:E.
  - apply Z.ltb_lt in E. apply H in E. split; [reflexivity |].
    intros [? ?]. destruct E as [?|[_ ?]]; lia.
  - apply Z.ltb_ge in E. split; [| reflexivity].
    intro Hc. exfalso.
    assert (plain_char char_is_signed b < 32); [| lia].
    apply H. destruct Hc; [now left | right; split; [reflexivity | assumption]].
Qed.

End Blanking.

Section Resolver.

Variable fs : procfs.
Variable id : Z.
Variable g : globals.

Hypothesis buf_size : length (cmdlinebuf g) = CMDLINE_SIZE.

(** A read shorter than the array: the blanked characters, then the NUL
    at index n, inside the array. *)
Lemma get_cmdline_short (data : list byte) :
  fs (lookups g) (proc_path id) = Reads data ->
  (length data < CMDLINE_SIZE)%nat ->
  get_cmdline fs id g
  = Done (mkGlobals (proc_path id)
            (map blank data ++ Byte.x00 :: skipn (S (length data)) (cmdlinebuf g))
            (Z.of_nat (length data)) (S (lookups g))).
Proof.
  intros Hfs Hlen. unfold get_cmdline. rewrite Hfs.
  rewrite firstn_all2 by lia.
  rewrite Nat2Z.id.
  unfold overwrite.
  destruct (skipn (length data) (cmdlinebuf g)) as [|x rest] eqn:Hrest.
  { apply (f_equal (@length byte)) in Hrest.
    rewrite length_skipn in Hrest. simpl in Hrest. lia. }
  change (data ++ x :: rest) with ([] ++ data ++ x :: rest) at 1.
  change 0%nat with (length (@nil byte)).
  rewrite blank_controls_run. unfold obind. cbn [app length Nat.add].
  pose proof (char_store_middle (map blank data) rest x Byte.x00) as Hst.
  rewrite length_map in Hst. rewrite Hst.
  do 3 f_equal.
  pose proof (skipn_skipn 1 (length data) (cmdlinebuf g)) as Hsk.
  rewrite Hrest in Hsk. f_equal. exact Hsk.
Qed.

(** A read that fills the array: the NUL goes to index 4096, one past
    the last element. *)
Lemma get_cmdline_full (data : list byte) :
  fs (lookups g) (proc_path id) = Reads data ->
  (CMDLINE_SIZE <= length data)%nat ->
  get_cmdline fs id g = Undefined (CharWriteOutOfBounds CMDLINE_SIZE).
Proof.
  intros Hfs Hlen. unfold get_cmdline. rewrite Hfs.
  assert (Hgot : length (firstn CMDLINE_SIZE data) = CMDLINE_SIZE)
    by (rewrite length_firstn; lia).
  rewrite Nat2Z.id. unfold overwrite.
  rewrite Hgot. rewrite skipn_all2 by lia.
  rewrite <- Hgot at 1.
  change (firstn CMDLINE_SIZE data ++ [])
    with ([] ++ firstn CMDLINE_SIZE data ++ []).
  change 0%nat with (length (@nil byte)).
  rewrite blank_controls_run. unfold obind.
  rewrite app_nil_r. cbn [app length Nat.add].
  pose proof (char_store_end (map blank (firstn CMDLINE_SIZE data)) Byte.x00) as Hst.
  rewrite length_map in Hst. rewrite Hst, Hgot. reflexivity.
Qed.

Lemma get_cmdline_open_fails :
  fs (lookups g) (proc_path id) = OpenFails ->
  exists g', get_cmdline fs id g = Done g'
             /\ c_string (cmdlinebuf g') = Some placeholder
             /\ procname g' = proc_path id.
Proof.
  intro Hfs. unfold get_cmdline. rewrite Hfs.
  eexists. split; [reflexivity |]. split; reflexivity.
Qed.

(** read(2) returning -1 leaves an empty string, not the placeholder. *)
Lemma get_cmdline_read_fails :
  fs (lookups g) (proc_path id) = ReadFails ->
  exists g', get_cmdline fs id g = Done g'
             /\ c_string (cmdlinebuf g') = Some []
             /\ bytes g' = -1.
Proof.
  intro Hfs. unfold get_cmdline. rewrite Hfs.
  destruct (cmdlinebuf g) as [|x rest] eqn:Hbuf.
  { simpl in buf_size. discriminate. }
  change (x :: rest) with ([] ++ x :: rest).
  change 0%nat with (length (@nil byte)).
  rewrite char_store_middle.
  eexists. split; [reflexivity |]. split; reflexivity.
Qed.

Lemma get_cmdline_short_string (data : list byte) :
  fs (lookups g) (proc_path id) = Reads data ->
  (length data < CMDLINE_SIZE)%nat ->
  cmdline_of (get_cmdline fs id g) = Some (map blank data).
Proof.
  intros Hfs Hlen. rewrite (get_cmdline_short data Hfs Hlen).
  simpl. apply c_string_blanked.
Qed.

(** Apart from the read that fills the array, every lookup is defined,
    leaves a terminated string, and keeps the size of the array. *)
Lemma get_cmdline_defined :
  (forall data, fs (lookups g) (proc_path id) = Reads data ->
                (length data < CMDLINE_SIZE)%nat) ->
  exists g' s, get_cmdline fs id g = Done g'
               /\ c_string (cmdlinebuf g') = Some s
               /\ length (cmdlinebuf g') = CMDLINE_SIZE
               /\ procname g' = proc_path id.
Proof.
  intro Hshort.
  destruct (fs (lookups g) (proc_path id)) as [| | data] eqn:Hfs.
  - unfold get_cmdline. rewrite Hfs.
    eexists. exists placeholder. split; [reflexivity |].
    split; [reflexivity |]. split; [| reflexivity].
    cbn [cmdlinebuf]. unfold overwrite.
    rewrite length_app, length_skipn, buf_size.
    change (length (placeholder ++ [Byte.x00])) with 6%nat.
    unfold CMDLINE_SIZE. lia.
  - unfold get_cmdline. rewrite Hfs.
    destruct (cmdlinebuf g) as [|x rest] eqn:Hbuf; [discriminate buf_size |].
    change (x :: rest) with ([] ++ x :: rest).
    change 0%nat with (length (@nil byte)).
    rewrite char_store_middle.
    eexists. exists []. split; [reflexivity |].
    split; [reflexivity |]. split; [| reflexivity].
    cbn [cmdlinebuf app length] in *. exact buf_size.
  - specialize (Hshort data eq_refl).
    rewrite (get_cmdline_short data Hfs Hshort).
    eexists. exists (map blank data). split; [reflexivity |].
    split; [apply c_string_blanked |]. split; [| reflexivity].
    cbn [cmdlinebuf]. rewrite length_app, length_map.
    cbn [length]. rewrite length_skipn, buf_size. lia.
Qed.

End Resolver.

(* ------------------------------------------------------------------ *)
(** * Running the monad *)

Lemma bind_rd {B} (buf : list byte) (off : Z) (n : nat) (v : Z)
      (k : Z -> M B) (w : world) :
  rcv_load buf off n = Some v ->
  (x <- rd buf off n ;; k x) w = k v (logged w [(off, n)]).
Proof. intro H. unfold bind, rd. now rewrite H. Qed.

Lemma bind_rd_u32 {B} (buf : list byte) (off v : Z) (k : Z -> M B) (w : world) :
  rcv_load buf off 4 = Some v ->
  (x <- rd_u32 buf off ;; k x) w = k v (logged w [(off, 4%nat)]).
Proof. apply bind_rd. Qed.

Lemma bind_rd_u16 {B} (buf : list byte) (off v : Z) (k : Z -> M B) (w : world) :
  rcv_load buf off 2 = Some v ->
  (x <- rd_u16 buf off ;; k x) w = k v (logged w [(off, 2%nat)]).
Proof. apply bind_rd. Qed.

Lemma bind_rd_pid {B} (buf : list byte) (off v : Z) (k : Z -> M B) (w : world) :
  pid_at buf off = Some v ->
  (x <- rd_pid buf off ;; k x) w = k v (logged w [(off, 4%nat)]).
Proof.
  unfold pid_at. intro H.
  destruct (rcv_load buf off 4) as [u|] eqn:E; [| discriminate].
  injection H as <-. unfold rd_pid, bind, rd, ret. now rewrite E.
Qed.

Lemma bind_call_get_cmdline {B} (fs : procfs) (id : Z) (g' : globals)
      (k : unit -> M B) (w : world) :
  get_cmdline fs id (gl w) = Done g' ->
  (x <- call_get_cmdline fs id ;; k x) w = k tt (mkWorld g' (stdout w) (rd_log w)).
Proof. intro H. unfold bind, call_get_cmdline. now rewrite H. Qed.

Lemma bind_arg_cmdline {B} (s : list byte) (k : list byte -> M B) (w : world) :
  c_string (cmdlinebuf (gl w)) = Some s ->
  (x <- arg_cmdline ;; k x) w = k s w.
Proof. intro H. unfold bind, arg_cmdline. now rewrite H. Qed.

(** What a decoded event says about the fields of the buffer. *)
Lemma decode_fork (buf : list byte) (pe a b c d : Z) :
  decode buf pe = Some (Fork a b c d) ->
  rcv_load buf (pe + off_what) 4 = Some PROC_EVENT_FORK
  /\ pid_at buf (pe + off_fork_parent_pid) = Some a
  /\ pid_at buf (pe + off_fork_child_pid) = Some c
  /\ pid_at buf (pe + off_fork_child_tgid) = Some d.
Proof.
  unfold decode.
  destruct (rcv_load buf (pe + off_what) 4) as [what|]; [| discriminate].
  destruct (Z.eqb_spec what PROC_EVENT_FORK) as [->|_].
  - destruct (pid_at buf (pe + off_fork_parent_pid)); [| discriminate].
    destruct (pid_at buf (pe + off_fork_parent_tgid)); [| discriminate].
    destruct (pid_at buf (pe + off_fork_child_pid)); [| discriminate].
    destruct (pid_at buf (pe + off_fork_child_tgid)); [| discriminate].
    intro H. injection H as -> -> -> ->. auto.
  - destruct (what =? PROC_EVENT_EXEC).
    + destruct (pid_at buf (pe + off_exec_process_pid)); [| discriminate].
      destruct (pid_at buf (pe + off_exec_process_tgid)); discriminate.
    + discriminate.
Qed.

Lemma decode_exec (buf : list byte) (pe a b : Z) :
  decode buf pe = Some (Exec a b) ->
  rcv_load buf (pe + off_what) 4 = Some PROC_EVENT_EXEC
  /\ pid_at buf (pe + off_exec_process_pid) = Some a
  /\ pid_at buf (pe + off_exec_process_tgid) = Some b.
Proof.
  unfold decode.
  destruct (rcv_load buf (pe + off_what) 4) as [what|]; [| discriminate].
  destruct (Z.eqb_spec what PROC_EVENT_FORK) as [->|_].
  - destruct (pid_at buf (pe + off_fork_parent_pid)); [| discriminate].
    destruct (pid_at buf (pe + off_fork_parent_tgid)); [| discriminate].
    destruct (pid_at buf (pe + off_fork_child_pid)); [| discriminate].
    destruct (pid_at buf (pe + off_fork_child_tgid)); discriminate.
  - destruct (Z.eqb_spec what PROC_EVENT_EXEC) as [->|_].
    + destruct (pid_at buf (pe + off_exec_process_pid)); [| discriminate].
      destruct (pid_at buf (pe + off_exec_process_tgid)); [| discriminate].
      intro H. injection H as -> ->. auto.
    + discriminate.
Qed.

Lemma channel_proc (buf : list byte) (hdr : Z) :
  channel_at buf hdr = Some (CN_IDX_PROC, CN_VAL_PROC) ->
  rcv_load buf (hdr + off_id_idx) 4 = Some CN_IDX_PROC
  /\ rcv_load buf (hdr + off_id_val) 4 = Some CN_VAL_PROC.
Proof.
  unfold channel_at.
  destruct (rcv_load buf (hdr + off_id_idx) 4); [| discriminate].
  destruct (rcv_load buf (hdr + off_id_val) 4); [| discriminate].
  intro H. injection H as -> ->. auto.
Qed.

(** The test of the channel, when it passes. *)
Lemma dispatch_nl_cn_proc (fl : filter_flags) (fs : procfs)
      (buf : list byte) (hdr : Z) (w : world) :
  channel_at buf hdr = Some (CN_IDX_PROC, CN_VAL_PROC) ->
  dispatch_nl_cn fl fs buf hdr w
  = dispatch_proc_event fl fs buf (hdr + off_cn_data)
      (logged (logged w [(hdr + off_id_idx, 4%nat)]) [(hdr + off_id_val, 4%nat)]).
Proof.
  intro H. apply channel_proc in H as [Hi Hv].
  unfold dispatch_nl_cn.
  rewrite (bind_rd_u32 _ _ _ _ _ Hi). rewrite Z.eqb_refl. cbn [negb].
  rewrite (bind_rd_u32 _ _ _ _ _ Hv). rewrite Z.eqb_refl. reflexivity.
Qed.

(* ------------------------------------------------------------------ *)
(** * Fork and Exec events *)

Ltac run_reads :=
  repeat first
    [ erewrite bind_rd_pid by eassumption
    | erewrite bind_rd_u32 by eassumption
    | erewrite bind_rd_u16 by eassumption ].

(** The three steps of a printf with a [%s] of get_cmdline(id): the
    call, the read of the string, the output. *)
Lemma run_printf_cmdline (fs : procfs) (id : Z) (render : list byte -> list byte)
      (w : world) :
  (call_get_cmdline fs id ;; s <- arg_cmdline ;; put (render s)) w
  = match get_cmdline fs id (gl w) with
    | Done g' =>
        match c_string (cmdlinebuf g') with
        | Some s => Ok tt (mkWorld g' (stdout w ++ render s) (rd_log w))
        | None => Stuck Unterminated (mkWorld g' (stdout w) (rd_log w))
        end
    | Undefined f => Stuck f w
    end.
Proof.
  unfold bind, call_get_cmdline, arg_cmdline, put.
  destruct (get_cmdline fs id (gl w)) as [g'|f]; [| reflexivity].
  cbn [gl stdout rd_log].
  destruct (c_string (cmdlinebuf g')); reflexivity.
Qed.

Lemma line2_text (tag : string) (a b : Z) (s : list byte) :
  line2 tag a b s
  = (lit tag ++ lit " " ++ fmt_d a ++ lit " " ++ fmt_d b ++ lit " ") ++ s ++ [Byte.x0a].
Proof. unfold line2. now rewrite <- !app_assoc. Qed.

Lemma line1_text (tag : string) (a : Z) (s : list byte) :
  line1 tag a s = (lit tag ++ lit " " ++ fmt_d a ++ lit " ") ++ s ++ [Byte.x0a].
Proof. unfold line1. now rewrite <- !app_assoc. Qed.

Ltac flatten_log :=
  unfold logged; cbn [gl stdout rd_log]; rewrite <- ?app_assoc; cbn [app].



(* ------------------------------------------------------------------ *)
(** * Frames: control types, channel test, foreign senders *)

(** C5.  A frame of type NLMSG_OVERRUN prints the line "overrun" once and
    does nothing else; the result is the same for all values of
    execflag, forkflag and threadflag. *)
Theorem overrun_line (fl : filter_flags) (fs : procfs) (buf : list byte)
        (nlhdr : Z) (w : world) :
  rcv_load buf (nlhdr + off_nlmsg_type) 2 = Some NLMSG_OVERRUN ->
  dispatch_nl fl fs buf nlhdr w
  = Ok tt (mkWorld (gl w)
                   (stdout w ++ lit "overrun" ++ [Byte.x0a])
                   (rd_log w ++ [(nlhdr + off_nlmsg_type, 2%nat)])).
Proof.
  intro Hty. unfold dispatch_nl.
  rewrite (bind_rd_u16 _ _ _ _ _ Hty). reflexivity.
Qed.

(** C8.  Frames of type NLMSG_ERROR or NLMSG_NOOP end the dispatch after
    the read of the type: no output, no read of the payload.  Frames of
    any type other than these and NLMSG_OVERRUN reach the switch on the
    process event exactly when id.idx = CN_IDX_PROC and
    id.val = CN_VAL_PROC; otherwise the dispatch ends after reading the
    channel identifiers, without output. *)
Theorem frame_classification (fl : filter_flags) (fs : procfs)
        (buf : list byte) (nlhdr : Z) (w : world) (ty : Z) :
  rcv_load buf (nlhdr + off_nlmsg_type) 2 = Some ty ->
  let r := dispatch_nl fl fs buf nlhdr w in
  let cn := NLMSG_DATA nlhdr in
  let w1 := logged w [(nlhdr + off_nlmsg_type, 2%nat)] in
  let w2 := logged w1 [(cn + off_id_idx, 4%nat)] in
  let w3 := logged w2 [(cn + off_id_val, 4%nat)] in
  (ty = NLMSG_ERROR \/ ty = NLMSG_NOOP -> r = Ok tt w1)
  /\
  (ty <> NLMSG_ERROR -> ty <> NLMSG_NOOP -> ty <> NLMSG_OVERRUN ->
   forall idx, rcv_load buf (cn + off_id_idx) 4 = Some idx ->
     (idx <> CN_IDX_PROC -> r = Ok tt w2)
     /\
     (idx = CN_IDX_PROC ->
      forall val, rcv_load buf (cn + off_id_val) 4 = Some val ->
        (val <> CN_VAL_PROC -> r = Ok tt w3)
        /\
        (val = CN_VAL_PROC ->
         r = dispatch_proc_event fl fs buf (cn + off_cn_data) w3))).
Proof.
  intros Hty r cn w1 w2 w3. subst r.
  unfold dispatch_nl. rewrite (bind_rd_u16 _ _ _ _ _ Hty).
  split.
  - intros [-> | ->]; reflexivity.
  - intros He Hn Ho idx Hidx.
    apply Z.eqb_neq in He, Hn, Ho. rewrite He, Hn, Ho. cbn [orb].
    unfold dispatch_nl_cn. fold cn.
    rewrite (bind_rd_u32 _ _ _ _ _ Hidx).
    split.
    + intros Hi. apply Z.eqb_neq in Hi. rewrite Hi. reflexivity.
    + intros -> val Hval. rewrite Z.eqb_refl. cbn [negb].
      rewrite (bind_rd_u32 _ _ _ _ _ Hval).
      split.
      * intros Hv. apply Z.eqb_neq in Hv. rewrite Hv. reflexivity.
      * intros ->. rewrite Z.eqb_refl. reflexivity.
Qed.

(** C10.  When the sender's nl_pid is not zero the turn of the receive
    loop changes nothing: no read of the receive buffer, no lookup, no
    output. *)
Theorem foreign_sender_skipped (fl : filter_flags) (fs : procfs)
        (d : datagram) (w : world) :
  nl_pid d <> 0 ->
  receive_turn fl fs d w = Ok tt w.
Proof.
  intro H. unfold receive_turn.
  apply Z.eqb_neq in H. rewrite H. reflexivity.
Qed.

(* ------------------------------------------------------------------ *)
(** * The bytes of the payload that are read *)

Section Footprint.

Variable P : Z * nat -> Prop.

Lemma reads_in_ret {A} (a : A) : reads_in P (ret a).
Proof. intro w. exists []. split; [symmetry; apply app_nil_r | constructor]. Qed.

Lemma reads_in_put (bs : list byte) : reads_in P (put bs).
Proof. intro w. exists []. split; [symmetry; apply app_nil_r | constructor]. Qed.

Lemma reads_in_call (fs : procfs) (id : Z) : reads_in P (call_get_cmdline fs id).
Proof.
  intro w. exists []. unfold call_get_cmdline.
  destruct (get_cmdline fs id (gl w)); (split; [symmetry; apply app_nil_r | constructor]).
Qed.

Lemma reads_in_arg : reads_in P arg_cmdline.
Proof.
  intro w. exists []. unfold arg_cmdline.
  destruct (c_string (cmdlinebuf (gl w))); (split; [symmetry; apply app_nil_r | constructor]).
Qed.

Lemma reads_in_bind {A B} (m : M A) (k : A -> M B) :
  reads_in P m -> (forall a, reads_in P (k a)) -> reads_in P (bind m k).
Proof.
  intros Hm Hk w. unfold bind.
  destruct (Hm w) as (n1 & E1 & F1).
  destruct (m w) as [a w1 | f w1]; cbn [world_of] in *.
  - destruct (Hk a w1) as (n2 & E2 & F2).
    exists (n1 ++ n2). split; [| now apply Forall_app].
    now rewrite E2, E1, app_assoc.
  - exists n1. now split.
Qed.

Lemma reads_in_rd_bind {B} (buf : list byte) (off : Z) (n : nat) (k : Z -> M B) :
  P (off, n) ->
  (forall v, rcv_load buf off n = Some v -> reads_in P (k v)) ->
  reads_in P (bind (rd buf off n) k).
Proof.
  intros Hp Hk w. unfold bind, rd.
  destruct (rcv_load buf off n) as [v|] eqn:E.
  - destruct (Hk v eq_refl (logged w [(off, n)])) as (n2 & E2 & F2).
    exists ((off, n) :: n2). split; [| now constructor].
    rewrite E2. cbn [logged rd_log]. now rewrite <- app_assoc.
  - exists [(off, n)]. split; [reflexivity | now repeat constructor].
Qed.

Lemma reads_in_rd_pid_bind {B} (buf : list byte) (off : Z) (k : Z -> M B) :
  P (off, 4%nat) ->
  (forall v, reads_in P (k v)) ->
  reads_in P (bind (rd_pid buf off) k).
Proof.
  intros Hp Hk. apply reads_in_bind; [| exact Hk].
  unfold rd_pid. apply reads_in_rd_bind; [exact Hp |].
  intros v _. apply reads_in_ret.
Qed.

End Footprint.

Ltac unfold_offsets :=
  unfold off_what, off_fork_parent_pid, off_fork_child_pid,
    off_fork_child_tgid, off_exec_process_pid, off_exec_process_tgid,
    off_event_data.

Ltac span := unfold in_span; unfold_offsets; cbn [fst snd]; lia.

Ltac field_by H := unfold field_read; rewrite H; unfold_offsets; cbn [fst snd];
                   split; [reflexivity | lia].

Ltac footprint_by tac :=
  repeat first
    [ apply reads_in_ret
    | apply reads_in_put
    | apply reads_in_rd_pid_bind; [tac | intro]
    | apply reads_in_bind; [apply reads_in_call | intro]
    | apply reads_in_bind; [apply reads_in_arg | intro]
    | match goal with
      | |- reads_in _ (if ?c then _ else _) => destruct c
      end ].

Ltac footprint := footprint_by ltac:(span).

Lemma dispatch_proc_event_reads (fl : filter_flags) (fs : procfs)
      (buf : list byte) (pe : Z) :
  reads_in (in_span pe (pe + payload_need fl buf pe))
           (dispatch_proc_event fl fs buf pe).
Proof.
  unfold dispatch_proc_event, rd_u32.
  apply reads_in_rd_bind.
  - unfold payload_need.
    destruct (rcv_load buf (pe + off_what) 4) as [what|];
      [destruct (what =? PROC_EVENT_FORK);
       [destruct (forkflag fl =? 0)
       | destruct (what =? PROC_EVENT_EXEC); [destruct (execflag fl =? 0) |]] |];
      span.
  - intros what Hwhat. unfold payload_need. rewrite Hwhat.
    destruct (what =? PROC_EVENT_FORK).
    + destruct (forkflag fl =? 0); footprint.
    + destruct (what =? PROC_EVENT_EXEC); [| footprint].
      destruct (execflag fl =? 0); footprint.
Qed.

(** Every read of the switch is a read of one four-byte field. *)
Lemma dispatch_proc_event_fields (fl : filter_flags) (fs : procfs)
      (buf : list byte) (pe : Z) :
  reads_in (field_read fl buf pe) (dispatch_proc_event fl fs buf pe).
Proof.
  unfold dispatch_proc_event, rd_u32.
  apply reads_in_rd_bind.
  - unfold field_read. cbn [fst snd]. split; [reflexivity | now left].
  - intros what Hwhat.
    assert (Hneed : payload_need fl buf pe
                    = if what =? PROC_EVENT_FORK then
                        if forkflag fl =? 0 then 4 else off_fork_child_tgid + 4
                      else if what =? PROC_EVENT_EXEC then
                        if execflag fl =? 0 then 4 else off_exec_process_tgid + 4
                      else 4)
      by (unfold payload_need; now rewrite Hwhat).
    revert Hneed.
    destruct (what =? PROC_EVENT_FORK).
    + destruct (forkflag fl =? 0); intro Hneed; footprint_by ltac:(field_by Hneed).
    + destruct (what =? PROC_EVENT_EXEC); [| intro Hneed; footprint_by ltac:(field_by Hneed)].
      destruct (execflag fl =? 0); intro Hneed; footprint_by ltac:(field_by Hneed).
Qed.

Lemma new_reads_app (w w' : world) (new : list (Z * nat)) :
  rd_log w' = rd_log w ++ new -> new_reads w w' = new.
Proof.
  intro H. unfold new_reads. rewrite H.
  rewrite skipn_app, skipn_all, Nat.sub_diag. reflexivity.
Qed.

Lemma decode_ignored (buf : list byte) (pe what : Z) :
  decode buf pe = Some (Ignored what) ->
  rcv_load buf (pe + off_what) 4 = Some what
  /\ (what =? PROC_EVENT_FORK) = false
  /\ (what =? PROC_EVENT_EXEC) = false.
Proof.
  unfold decode.
  destruct (rcv_load buf (pe + off_what) 4) as [v|]; [| discriminate].
  destruct (v =? PROC_EVENT_FORK) eqn:Ef.
  - destruct (pid_at buf (pe + off_fork_parent_pid)); [| discriminate].
    destruct (pid_at buf (pe + off_fork_parent_tgid)); [| discriminate].
    destruct (pid_at buf (pe + off_fork_child_pid)); [| discriminate].
    destruct (pid_at buf (pe + off_fork_child_tgid)); discriminate.
  - destruct (v =? PROC_EVENT_EXEC) eqn:Ee.
    + destruct (pid_at buf (pe + off_exec_process_pid)); [| discriminate].
      destruct (pid_at buf (pe + off_exec_process_tgid)); discriminate.
    + intro H. injection H as <-. auto.
Qed.

Ltac printf_log :=
  rewrite run_printf_cmdline;
  match goal with
  | |- context [get_cmdline ?fs ?id ?g] =>
      destruct (get_cmdline fs id g) as [?g'|?f];
      [ match goal with
        | |- context [c_string ?b] => destruct (c_string b)
        end |]
  end;
  cbn [world_of]; flatten_log; reflexivity.

(** The log of the switch for an event that decodes. *)
Lemma dispatch_proc_event_log (fl : filter_flags) (fs : procfs)
      (buf : list byte) (pe : Z) (w : world) (ev : proc_event) :
  decode buf pe = Some ev ->
  rd_log (world_of (dispatch_proc_event fl fs buf pe w))
  = rd_log w ++ event_reads fl pe ev.
Proof.
  intro Hdec. unfold dispatch_proc_event, event_reads.
  destruct ev as [ppid ptgid cpid ctgid | pid tgid | what].
  - apply decode_fork in Hdec as (Hwhat & Hpp & Hcp & Hct).
    rewrite (bind_rd_u32 _ _ _ _ _ Hwhat), Z.eqb_refl.
    destruct (forkflag fl =? 0); [reflexivity |].
    run_reads.
    destruct (cpid =? ctgid); [run_reads; printf_log |].
    destruct (threadflag fl =? 0);
      [unfold ret; cbn [world_of]; flatten_log; reflexivity |].
    run_reads. printf_log.
  - apply decode_exec in Hdec as (Hwhat & Hp & Ht).
    rewrite (bind_rd_u32 _ _ _ _ _ Hwhat).
    change (PROC_EVENT_EXEC =? PROC_EVENT_FORK) with false.
    rewrite Z.eqb_refl. cbv iota.
    destruct (execflag fl =? 0); [reflexivity |].
    run_reads.
    destruct (pid =? tgid); [run_reads; printf_log |].
    destruct (threadflag fl =? 0);
      [unfold ret; cbn [world_of]; flatten_log; reflexivity |].
    run_reads. printf_log.
  - apply decode_ignored in Hdec as (Hwhat & Hf & He).
    rewrite (bind_rd_u32 _ _ _ _ _ Hwhat), Hf, He. reflexivity.
Qed.

(** C3 (amended).  The switch on the process event never consults the
    payload length the connector message declares.  For an event that
    decodes, its reads are exactly: the discriminant (payload bytes
    0..3); under the flag of the event, child_pid (24..27) and
    child_tgid (28..31) of a Fork event, or process_pid (16..19) and
    process_tgid (20..23) of an Exec event; and, when a line is printed,
    the arguments of printf: parent_pid (16..19), child_pid, child_tgid
    for an ordinary fork; child_tgid, child_pid, child_tgid for a
    thread; the two or three identifiers of an exec.  In every run each
    read is a four-byte read of the discriminant or within bytes
    16..31 (Fork) or 16..23 (Exec), and nothing else; so every read lies
    within the declared length whenever that length covers these
    bytes. *)
Theorem decode_reads_bounded (fl : filter_flags) (fs : procfs)
        (buf : list byte) (hdr : Z) (w : world) :
  let pe := hdr + off_cn_data in
  (forall ev, decode buf pe = Some ev ->
     payload_reads fl fs buf hdr w = event_reads fl pe ev)
  /\ Forall (field_read fl buf pe) (payload_reads fl fs buf hdr w)
  /\ Forall (in_span pe (pe + payload_need fl buf pe)) (payload_reads fl fs buf hdr w)
  /\
  (forall len, declared_len buf hdr = Some len ->
     payload_need fl buf pe <= len ->
     reads_within_declared fl fs buf hdr w).
Proof.
  intro pe.
  assert (HF : Forall (in_span pe (pe + payload_need fl buf pe))
                      (payload_reads fl fs buf hdr w)).
  { destruct (dispatch_proc_event_reads fl fs buf pe w) as (new & E & F).
    unfold payload_reads. fold pe. now rewrite (new_reads_app _ _ _ E). }
  split.
  { intros ev Hdec. unfold payload_reads. fold pe.
    apply new_reads_app. now apply dispatch_proc_event_log. }
  split.
  { destruct (dispatch_proc_event_fields fl fs buf pe w) as (new & E & F).
    unfold payload_reads. fold pe. now rewrite (new_reads_app _ _ _ E). }
  split; [exact HF |].
  intros len Hlen Hneed len' Hlen'.
  rewrite Hlen in Hlen'. injection Hlen' as <-.
  fold pe. eapply Forall_impl; [| exact HF].
  intros r [Hlo Hhi]. split; [exact Hlo | lia].
Qed.

(* ------------------------------------------------------------------ *)
(** * The walk over the frames of a datagram *)

Lemma land_clear_low2 (x : Z) :
  0 <= x < 2 ^ 32 -> Z.land x (2 ^ 32 - 4) = 4 * (x / 4).
Proof.
  intros Hx.
  change (2 ^ 32 - 4) with (Z.shiftl (Z.ones 30) 2).
  replace (4 * (x / 4)) with (Z.shiftl (Z.shiftr x 2) 2)
    by (rewrite Z.shiftl_mul_pow2, Z.shiftr_div_pow2 by lia; change (2 ^ 2) with 4; lia).
  apply Z.bits_inj'. intros n Hn.
  rewrite Z.land_spec.
  destruct (Z.ltb_spec n 2) as [Hlt | Hge].
  - rewrite !Z.shiftl_spec_low by lia. apply andb_false_r.
  - rewrite !Z.shiftl_spec by lia.
    rewrite Z.shiftr_spec by lia.
    replace (n - 2 + 2) with n by lia.
    destruct (Z.ltb_spec n 32) as [Hlt | Hge'].
    + rewrite Z.ones_spec_low by lia. apply andb_true_r.
    + rewrite Z.ones_spec_high by lia. rewrite andb_false_r.
      symmetry.
      destruct (Z.eq_dec x 0) as [-> | Hnz]; [apply Z.bits_0 |].
      apply Z.bits_above_log2; [lia |].
      apply Z.lt_le_trans with 32; [| lia].
      apply Z.log2_lt_pow2; lia.
Qed.

Lemma NLMSG_ALIGN_bounds (len : Z) :
  0 <= len < 2 ^ 32 - 3 ->
  len <= NLMSG_ALIGN len < len + 4.
Proof.
  intros H. unfold NLMSG_ALIGN.
  change (Z.lnot (4 - 1) mod 2 ^ 32) with (2 ^ 32 - 4).
  rewrite Z.mod_small by lia.
  rewrite land_clear_low2 by lia.
  pose proof (Z.div_mod (len + 4 - 1) 4 ltac:(lia)).
  pose proof (Z.mod_pos_bound (len + 4 - 1) 4 ltac:(lia)).
  lia.
Qed.

Lemma rcv_load_in_range (buf : list byte) (off : Z) (n : nat) :
  0 <= off -> off + Z.of_nat n <= Z.of_nat (length buf) ->
  exists v, rcv_load buf off n = Some v.
Proof.
  intros Hlo Hhi. unfold rcv_load.
  apply Z.leb_le in Hlo, Hhi. rewrite Hlo, Hhi. eexists. reflexivity.
Qed.

Lemma byte_val_range (b : byte) : 0 <= byte_val b < 256.
Proof.
  unfold byte_val. pose proof (Byte.to_N_bounded b). lia.
Qed.

Lemma le_value_range (bs : list byte) :
  0 <= le_value bs < 256 ^ Z.of_nat (length bs).
Proof.
  induction bs as [|b bs IH].
  - simpl. lia.
  - cbn [le_value length]. rewrite Nat2Z.inj_succ, Z.pow_succ_r by lia.
    pose proof (byte_val_range b). lia.
Qed.

Lemma rcv_load_u32_range (buf : list byte) (off v : Z) :
  rcv_load buf off 4 = Some v -> 0 <= v < 2 ^ 32.
Proof.
  unfold rcv_load.
  destruct ((0 <=? off) && (off + Z.of_nat 4 <=? Z.of_nat (length buf))) eqn:E;
    [| discriminate].
  intro H. injection H as <-.
  pose proof (le_value_range (firstn 4 (skipn (Z.to_nat off) buf))) as R.
  assert (L : (length (firstn 4 (skipn (Z.to_nat off) buf)) <= 4)%nat)
    by (rewrite length_firstn; lia).
  assert (B : 256 ^ Z.of_nat (length (firstn 4 (skipn (Z.to_nat off) buf))) <= 256 ^ 4)
    by (apply Z.pow_le_mono_r; lia).
  change (256 ^ 4) with (2 ^ 32) in B.
  set (top := 2 ^ 32) in *.
  set (k := 256 ^ Z.of_nat (length (firstn 4 (skipn (Z.to_nat off) buf)))) in *.
  clearbody k top.
  split; [apply R | eapply Z.lt_le_trans; [apply R | exact B]].
Qed.

Lemma pid_at_range (buf : list byte) (off v : Z) :
  pid_at buf off = Some v -> - 2 ^ 31 <= v < 2 ^ 31.
Proof.
  unfold pid_at. destruct (rcv_load buf off 4) as [u|] eqn:E; [| discriminate].
  intro H. injection H as <-.
  apply rcv_load_u32_range in E. unfold to_int32.
  destruct (Z.ltb_spec u (2 ^ 31)); lia.
Qed.

Section Oblivious.

Lemma same_visible_refl (w : world) : same_visible w w.
Proof. split; reflexivity. Qed.

Lemma same_visible_logged (w1 w2 : world) (l1 l2 : list (Z * nat)) :
  same_visible w1 w2 -> same_visible (logged w1 l1) (logged w2 l2).
Proof. intros [? ?]. split; assumption. Qed.

Lemma oblivious_ret {A} (a : A) : oblivious (ret a).
Proof. intros w1 w2 H. split; [reflexivity | exact H]. Qed.

Lemma oblivious_bind {A B} (m : M A) (k : A -> M B) :
  oblivious m -> (forall a, oblivious (k a)) -> oblivious (bind m k).
Proof.
  intros Hm Hk w1 w2 H. unfold bind.
  specialize (Hm w1 w2 H).
  destruct (m w1) as [a1 v1 | f1 v1], (m w2) as [a2 v2 | f2 v2];
    cbn [similar] in Hm; try contradiction.
  - destruct Hm as [<- Hv]. now apply Hk.
  - exact Hm.
Qed.

Lemma oblivious_rd (buf : list byte) (off : Z) (n : nat) : oblivious (rd buf off n).
Proof.
  intros w1 w2 H. unfold rd.
  destruct (rcv_load buf off n); (split; [reflexivity | now apply same_visible_logged]).
Qed.

Lemma oblivious_rd_pid (buf : list byte) (off : Z) : oblivious (rd_pid buf off).
Proof.
  unfold rd_pid. apply oblivious_bind; [apply oblivious_rd |].
  intro. apply oblivious_ret.
Qed.

Lemma oblivious_put (bs : list byte) : oblivious (put bs).
Proof.
  intros w1 w2 [Hg Ho]. unfold put.
  split; [reflexivity |]. split; cbn [gl stdout]; congruence.
Qed.

Lemma oblivious_call (fs : procfs) (id : Z) : oblivious (call_get_cmdline fs id).
Proof.
  intros w1 w2 [Hg Ho]. unfold call_get_cmdline. rewrite Hg.
  destruct (get_cmdline fs id (gl w2)).
  - split; [reflexivity |]. split; [reflexivity | exact Ho].
  - split; [reflexivity |]. split; assumption.
Qed.

Lemma oblivious_arg : oblivious arg_cmdline.
Proof.
  intros w1 w2 [Hg Ho]. unfold arg_cmdline. rewrite Hg.
  destruct (c_string (cmdlinebuf (gl w2)));
    (split; [reflexivity |]; split; assumption).
Qed.

End Oblivious.

Ltac log_free :=
  repeat first
    [ apply oblivious_ret
    | apply oblivious_put
    | apply oblivious_call
    | apply oblivious_arg
    | apply oblivious_rd_pid
    | apply oblivious_rd
    | apply oblivious_bind; [| intro]
    | match goal with
      | |- oblivious (if ?c then _ else _) => destruct c
      end ].

Lemma oblivious_dispatch_nl (fl : filter_flags) (fs : procfs)
      (buf : list byte) (nlhdr : Z) :
  oblivious (dispatch_nl fl fs buf nlhdr).
Proof.
  unfold dispatch_nl, dispatch_nl_cn, dispatch_proc_event, rd_u16, rd_u32.
  log_free.
Qed.

Section Walk.

Variable buf : list byte.

Hypothesis buf_small : Z.of_nat (length buf) < 2 ^ 32 - 3.

Lemma frame_ok_align (pos remain len : Z) :
  frame_ok buf pos remain len -> remain < 2 ^ 32 - 3 ->
  len <= NLMSG_ALIGN len < len + 4.
Proof.
  intros (H1 & H2 & H3) Hr. apply NLMSG_ALIGN_bounds.
  unfold sizeof_nlmsghdr in *. lia.
Qed.

(** The walk exists for every position: the remaining count decreases
    by at least the header size at each step. *)
Lemma frame_walk_exists (n : nat) :
  forall pos remain,
    (Z.to_nat remain < n)%nat -> remain < 2 ^ 32 - 3 ->
    exists frames, frame_walk buf pos remain frames.
Proof.
  induction n as [|n IH]; intros pos remain Hn Hr; [lia |].
  destruct (Z_le_dec sizeof_nlmsghdr remain) as [H1 | H1];
    [| exists []; apply walk_stop; intros len (F1 & _); contradiction].
  destruct (rcv_load buf (pos + off_nlmsg_len) 4) as [len|] eqn:E;
    [| exists []; apply walk_stop; intros len (_ & F2 & _); congruence].
  destruct (Z_le_dec sizeof_nlmsghdr len) as [H2 | H2];
    [| exists []; apply walk_stop; intros len' (_ & F2 & F3);
       rewrite E in F2; injection F2 as <-; lia].
  destruct (Z_le_dec len remain) as [H3 | H3];
    [| exists []; apply walk_stop; intros len' (_ & F2 & F3);
       rewrite E in F2; injection F2 as <-; lia].
  assert (Hok : frame_ok buf pos remain len) by (repeat split; assumption).
  pose proof (frame_ok_align _ _ _ Hok Hr) as Ha.
  unfold sizeof_nlmsghdr in *.
  destruct (IH (pos + NLMSG_ALIGN len) (remain - NLMSG_ALIGN len)) as [rest Hrest];
    [lia | lia |].
  exists (pos :: rest). now apply walk_next with len.
Qed.

(** Every frame the walk visits lies, with its declared length, inside
    the bytes that remained when the walk started. *)
Lemma frame_walk_inside (pos remain : Z) (frames : list Z) :
  frame_walk buf pos remain frames ->
  remain < 2 ^ 32 - 3 ->
  Forall (fun h => pos <= h /\ exists len,
            rcv_load buf (h + off_nlmsg_len) 4 = Some len
            /\ sizeof_nlmsghdr <= len /\ h + len <= pos + remain) frames.
Proof.
  induction 1 as [pos remain Hno | pos remain len rest Hok Hw IH]; intro Hr.
  - constructor.
  - pose proof (frame_ok_align _ _ _ Hok Hr) as Ha.
    destruct Hok as (H1 & H2 & H3). unfold sizeof_nlmsghdr in *.
    constructor.
    + split; [lia |]. exists len. repeat split; [assumption | lia | lia].
    + eapply Forall_impl; [| apply IH; lia].
      intros h (Hh & l & Hl & Hl1 & Hl2). split; [lia |].
      exists l. repeat split; [assumption | lia | lia].
Qed.

(** The walk is a function of the buffer and the count. *)
Lemma frame_walk_unique (pos remain : Z) (fs1 fs2 : list Z) :
  frame_walk buf pos remain fs1 -> frame_walk buf pos remain fs2 -> fs1 = fs2.
Proof.
  intro H1. revert fs2.
  induction H1 as [pos remain Hno | pos remain len rest Hok Hw IH];
    intros fs2 H2; inversion H2 as [? ? Hno2 | ? ? len2 rest2 Hok2 Hw2]; subst.
  - reflexivity.
  - exfalso. exact (Hno len2 Hok2).
  - exfalso. exact (Hno2 len Hok).
  - f_equal. apply IH.
    destruct Hok as (_ & E1 & _), Hok2 as (_ & E2 & _).
    rewrite E1 in E2. injection E2 as <-. exact Hw2.
Qed.

Lemma NLMSG_OK_run (pos remain : Z) (w : world) :
  0 <= pos -> pos + remain <= Z.of_nat (length buf) ->
  exists b w', NLMSG_OK buf pos remain w = Ok b w'
               /\ same_visible w w'
               /\ (b = true <-> exists len, frame_ok buf pos remain len).
Proof.
  intros Hp Hr. unfold NLMSG_OK. rewrite Z.geb_leb.
  destruct (Z.leb_spec sizeof_nlmsghdr remain) as [H1 | H1].
  - destruct (rcv_load_in_range buf (pos + off_nlmsg_len) 4) as [len E];
      [unfold off_nlmsg_len; lia
      | unfold off_nlmsg_len, sizeof_nlmsghdr in *; lia |].
    rewrite (bind_rd_u32 _ _ _ _ _ E). rewrite Z.geb_leb.
    destruct (Z.leb_spec sizeof_nlmsghdr len) as [H2 | H2].
    + rewrite (bind_rd_u32 _ _ _ _ _ E). unfold ret.
      do 2 eexists. split; [reflexivity |].
      split; [split; reflexivity |].
      split.
      * intro Hb. apply Z.leb_le in Hb. exists len. repeat split; assumption.
      * intros (len' & _ & F2 & F3). rewrite E in F2. injection F2 as <-.
        apply Z.leb_le. lia.
    + unfold ret. do 2 eexists. split; [reflexivity |].
      split; [split; reflexivity |].
      split; [discriminate |].
      intros (len' & _ & F2 & F3). rewrite E in F2. injection F2 as <-. lia.
  - unfold ret. do 2 eexists. split; [reflexivity |].
    split; [apply same_visible_refl |].
    split; [discriminate |].
    intros (len' & F1 & _). lia.
Qed.

Lemma NLMSG_NEXT_run (pos remain len : Z) (w : world) :
  rcv_load buf (pos + off_nlmsg_len) 4 = Some len ->
  exists w', NLMSG_NEXT buf pos remain w
             = Ok (pos + NLMSG_ALIGN len, remain - NLMSG_ALIGN len) w'
             /\ same_visible w w'.
Proof.
  intro E. unfold NLMSG_NEXT.
  rewrite (bind_rd_u32 _ _ _ _ _ E), (bind_rd_u32 _ _ _ _ _ E). unfold ret.
  eexists. split; [reflexivity | split; reflexivity].
Qed.

Lemma same_visible_trans (w1 w2 w3 : world) :
  same_visible w1 w2 -> same_visible w2 w3 -> same_visible w1 w3.
Proof. intros [? ?] [? ?]. split; congruence. Qed.

Lemma same_visible_sym (w1 w2 : world) :
  same_visible w1 w2 -> same_visible w2 w1.
Proof. intros [? ?]. split; congruence. Qed.

Variable fl : filter_flags.
Variable fs : procfs.

(** The loop of main does what the walk says: it dispatches the frames
    of the walk in order and then stops, provided the fuel exceeds the
    remaining count. *)
Lemma frame_loop_follows_walk (pos remain : Z) (frames : list Z) :
  frame_walk buf pos remain frames ->
  forall fuel w1 w2,
    0 <= pos -> pos + remain <= Z.of_nat (length buf) ->
    (Z.to_nat remain < fuel)%nat ->
    same_visible w1 w2 ->
    similar (frame_loop fuel fl fs buf pos remain w1)
            (for_each (dispatch_nl fl fs buf) frames w2).
Proof.
  induction 1 as [pos remain Hno | pos remain len rest Hok Hw IH];
    intros fuel w1 w2 Hp Hr Hf Hv.
  - destruct fuel as [|fuel]; [lia |].
    cbn [frame_loop for_each]. unfold bind at 1.
    destruct (NLMSG_OK_run pos remain w1 Hp Hr) as (b & w' & E & V & Hb).
    rewrite E. destruct b.
    + exfalso. destruct (proj1 Hb eq_refl) as [len Hlen]. exact (Hno len Hlen).
    + unfold ret. split; [reflexivity |].
      eapply same_visible_trans; [apply same_visible_sym; exact V | exact Hv].
  - destruct fuel as [|fuel]; [lia |].
    assert (Hrs : remain < 2 ^ 32 - 3) by lia.
    pose proof (frame_ok_align _ _ _ Hok Hrs) as Ha.
    cbn [frame_loop for_each]. unfold bind at 1.
    destruct (NLMSG_OK_run pos remain w1 Hp Hr) as (b & w' & E & V & Hb).
    rewrite E.
    assert (b = true) as -> by (apply Hb; now exists len).
    assert (V' : same_visible w' w2)
      by (eapply same_visible_trans; [apply same_visible_sym; exact V | exact Hv]).
    pose proof (oblivious_dispatch_nl fl fs buf pos w' w2 V') as Hd.
    unfold bind.
    destruct (dispatch_nl fl fs buf pos w') as [[] v1 | f1 v1],
             (dispatch_nl fl fs buf pos w2) as [[] v2 | f2 v2];
      cbn [similar] in Hd; try contradiction.
    + destruct Hd as [_ Hd].
      destruct Hok as (H1 & H2 & H3).
      destruct (NLMSG_NEXT_run pos remain len v1 H2) as (v1' & En & Vn).
      rewrite En. cbn [fst snd].
      unfold sizeof_nlmsghdr in *.
      apply IH; [lia | lia | lia |].
      eapply same_visible_trans; [apply same_visible_sym; exact Vn | exact Hd].
    + exact Hd.
Qed.

End Walk.

(** ** What the loop reads *)

Lemma reads_in_impl (P Q : Z * nat -> Prop) {A} (m : M A) :
  (forall r, P r -> Q r) -> reads_in P m -> reads_in Q m.
Proof.
  intros HPQ Hm w. destruct (Hm w) as (new & E & F).
  exists new. split; [exact E |]. eapply Forall_impl; [exact HPQ | exact F].
Qed.

Lemma payload_need_le (fl : filter_flags) (buf : list byte) (pe : Z) :
  payload_need fl buf pe <= off_fork_child_tgid + 4.
Proof.
  unfold payload_need.
  destruct (rcv_load buf (pe + off_what) 4) as [what|];
    [destruct (what =? PROC_EVENT_FORK);
     [destruct (forkflag fl =? 0)
     | destruct (what =? PROC_EVENT_EXEC); [destruct (execflag fl =? 0) |]] |];
    unfold_offsets; lia.
Qed.

(** The dispatch of the frame at [h] reads within [FRAME_REACH] bytes
    from [h], whatever length the frame declares. *)
Lemma dispatch_nl_reach (fl : filter_flags) (fs : procfs) (buf : list byte) (h : Z) :
  reads_in (in_span h (h + FRAME_REACH)) (dispatch_nl fl fs buf h).
Proof.
  assert (HR : FRAME_REACH = 68) by reflexivity.
  assert (HD : NLMSG_DATA h = h + 16) by reflexivity.
  unfold dispatch_nl, rd_u16.
  apply reads_in_rd_bind;
    [unfold in_span, off_nlmsg_type; cbn [fst snd]; lia |].
  intros ty _.
  destruct ((ty =? NLMSG_ERROR) || (ty =? NLMSG_NOOP)); [apply reads_in_ret |].
  destruct (ty =? NLMSG_OVERRUN); [apply reads_in_put |].
  rewrite HD. unfold dispatch_nl_cn, rd_u32.
  apply reads_in_rd_bind;
    [unfold in_span, off_id_idx; cbn [fst snd]; lia |].
  intros idx _.
  destruct (negb (idx =? CN_IDX_PROC)); [apply reads_in_ret |].
  apply reads_in_rd_bind;
    [unfold in_span, off_id_val; cbn [fst snd]; lia |].
  intros val _.
  destruct (negb (val =? CN_VAL_PROC)); [apply reads_in_ret |].
  eapply reads_in_impl; [| apply dispatch_proc_event_reads].
  intros r [Hlo Hhi].
  pose proof (payload_need_le fl buf (h + 16 + off_cn_data)) as Hn.
  revert Hlo Hhi Hn. unfold in_span, off_cn_data. unfold_offsets. lia.
Qed.

Lemma NLMSG_OK_reads (buf : list byte) (pos remain : Z) :
  reads_in (fun r => r = (pos + off_nlmsg_len, 4%nat)) (NLMSG_OK buf pos remain).
Proof.
  unfold NLMSG_OK, rd_u32.
  destruct (remain >=? sizeof_nlmsghdr); [| apply reads_in_ret].
  apply reads_in_rd_bind; [reflexivity |]. intros l1 _.
  destruct (l1 >=? sizeof_nlmsghdr); [| apply reads_in_ret].
  apply reads_in_rd_bind; [reflexivity |]. intros l2 _.
  apply reads_in_ret.
Qed.

Lemma NLMSG_NEXT_reads (buf : list byte) (pos remain : Z) :
  reads_in (fun r => r = (pos + off_nlmsg_len, 4%nat)) (NLMSG_NEXT buf pos remain).
Proof.
  unfold NLMSG_NEXT, rd_u32.
  apply reads_in_rd_bind; [reflexivity |]. intros l1 _.
  apply reads_in_rd_bind; [reflexivity |]. intros l2 _.
  apply reads_in_ret.
Qed.

Lemma frame_read_head (h : Z) (rest : list Z) (stop : Z) (r : Z * nat) :
  in_span h (h + FRAME_REACH) r -> frame_read (h :: rest) stop r.
Proof. intro H. left. exists h. split; [now left | exact H]. Qed.

Lemma frame_read_header (h : Z) (rest : list Z) (stop : Z) (r : Z * nat) :
  r = (h + off_nlmsg_len, 4%nat) -> frame_read (h :: rest) stop r.
Proof.
  intros ->. apply frame_read_head.
  unfold in_span, off_nlmsg_len. cbn [fst snd].
  change FRAME_REACH with 68. lia.
Qed.

Lemma frame_read_tail (h : Z) (rest : list Z) (stop : Z) (r : Z * nat) :
  frame_read rest stop r -> frame_read (h :: rest) stop r.
Proof.
  intros [(h' & Hin & Hs) | ->]; [| now right].
  left. exists h'. split; [now right | exact Hs].
Qed.

(** No frame passes the checks at the position where the walk ends. *)
Lemma walk_end_fails (buf : list byte) (pos remain : Z) (frames : list Z) :
  frame_walk buf pos remain frames ->
  forall len,
    ~ frame_ok buf (walk_end buf pos frames)
               (pos + remain - walk_end buf pos frames) len.
Proof.
  induction 1 as [pos remain Hno | pos remain len rest Hok Hw IH]; intro l.
  - cbn [walk_end]. replace (pos + remain - pos) with remain by lia. apply Hno.
  - cbn [walk_end]. destruct Hok as (_ & E & _). rewrite E.
    replace (pos + remain - walk_end buf (pos + NLMSG_ALIGN len) rest)
      with (pos + NLMSG_ALIGN len + (remain - NLMSG_ALIGN len)
            - walk_end buf (pos + NLMSG_ALIGN len) rest) by lia.
    apply IH.
Qed.

(** The reads of the loop: for each frame of the walk the tests of its
    nlmsg_len and the reads of its dispatch, then the test of nlmsg_len
    at the position where the walk ends. *)
Lemma frame_loop_reads (buf : list byte) (fl : filter_flags) (fs : procfs)
      (pos remain : Z) (frames : list Z) :
  frame_walk buf pos remain frames ->
  forall fuel w,
    0 <= pos -> pos + remain <= Z.of_nat (length buf) ->
    Z.of_nat (length buf) < 2 ^ 32 - 3 ->
    (Z.to_nat remain < fuel)%nat ->
    exists new,
      rd_log (world_of (frame_loop fuel fl fs buf pos remain w)) = rd_log w ++ new
      /\ Forall (frame_read frames (walk_end buf pos frames)) new.
Proof.
  induction 1 as [pos remain Hno | pos remain len rest Hok Hw IH];
    intros fuel w Hp Hr Hsmall Hf.
  - destruct fuel as [|fuel]; [lia |].
    cbn [frame_loop walk_end]. unfold bind at 1.
    destruct (NLMSG_OK_run buf pos remain w Hp Hr) as (b & w' & E & _ & Hb).
    destruct (NLMSG_OK_reads buf pos remain w) as (n1 & L1 & F1).
    rewrite E in L1 |- *. cbn [world_of] in L1.
    destruct b.
    + exfalso. destruct (proj1 Hb eq_refl) as [len Hlen]. exact (Hno len Hlen).
    + exists n1. split; [exact L1 |].
      eapply Forall_impl; [| exact F1]. intros r ->. now right.
  - destruct fuel as [|fuel]; [lia |].
    assert (Hrs : remain < 2 ^ 32 - 3) by lia.
    pose proof (frame_ok_align buf _ _ _ Hok Hrs) as Ha.
    destruct Hok as (H1 & H2 & H3).
    cbn [frame_loop walk_end]. rewrite H2. unfold bind at 1.
    destruct (NLMSG_OK_run buf pos remain w Hp Hr) as (b & w1 & E & _ & Hb).
    destruct (NLMSG_OK_reads buf pos remain w) as (n1 & L1 & F1).
    rewrite E in L1 |- *. cbn [world_of] in L1.
    assert (b = true) as -> by (apply Hb; exists len; exact (conj H1 (conj H2 H3))).
    unfold bind at 1.
    destruct (dispatch_nl_reach fl fs buf pos w1) as (n2 & L2 & F2).
    destruct (dispatch_nl fl fs buf pos w1) as [[] w2 | f w2]; cbn [world_of] in L2 |- *.
    + unfold bind at 1.
      destruct (NLMSG_NEXT_run buf pos remain len w2 H2) as (w3 & En & _).
      destruct (NLMSG_NEXT_reads buf pos remain w2) as (n3 & L3 & F3).
      rewrite En in L3 |- *. cbn [world_of fst snd] in L3 |- *.
      unfold sizeof_nlmsghdr in *.
      destruct (IH fuel w3) as (n4 & L4 & F4); [lia | lia | exact Hsmall | lia |].
      exists (n1 ++ n2 ++ n3 ++ n4). split.
      * rewrite L4, L3, L2, L1, <- !app_assoc. reflexivity.
      * apply Forall_app. split; [| apply Forall_app; split; [| apply Forall_app; split]].
        -- eapply Forall_impl; [| exact F1]. intro r. apply frame_read_header.
        -- eapply Forall_impl; [| exact F2]. intro r. apply frame_read_head.
        -- eapply Forall_impl; [| exact F3]. intro r. apply frame_read_header.
        -- eapply Forall_impl; [| exact F4]. intro r. apply frame_read_tail.
    + exists (n1 ++ n2). split.
      * rewrite L2, L1, <- app_assoc. reflexivity.
      * apply Forall_app. split.
        -- eapply Forall_impl; [| exact F1]. intro r. apply frame_read_header.
        -- eapply Forall_impl; [| exact F2]. intro r. apply frame_read_head.
Qed.

(** C6 (amended).  For a datagram from the kernel the receive loop
    dispatches exactly the frames of the walk, in order: a frame is
    dispatched only when a header fits in the remaining bytes and its
    declared length is at least the header size and at most the
    remaining bytes, hence lies inside the received bytes.  At the first
    position where this fails the loop ends; nothing is printed for it
    and no later frame is dispatched.  The loop reads, for each frame it
    dispatches, bytes within 68 bytes from the start of that frame,
    whatever length the frame declares, and besides these only the
    nlmsg_len it tests at the position where it ends. *)
Theorem frame_iteration (fl : filter_flags) (fs : procfs) (d : datagram) (w : world) :
  nl_pid d = 0 ->
  received d ->
  exists frames,
    frame_walk (rcvbuf d) 0 (bcount d) frames
    /\ Forall (fun h => exists len,
                 rcv_load (rcvbuf d) (h + off_nlmsg_len) 4 = Some len
                 /\ sizeof_nlmsghdr <= len /\ h + len <= bcount d) frames
    /\ similar (receive_turn fl fs d w)
               (for_each (dispatch_nl fl fs (rcvbuf d)) frames w)
    /\ (forall len,
          ~ frame_ok (rcvbuf d) (walk_end (rcvbuf d) 0 frames)
                     (bcount d - walk_end (rcvbuf d) 0 frames) len)
    /\ Forall (frame_read frames (walk_end (rcvbuf d) 0 frames))
              (new_reads w (world_of (receive_turn fl fs d w))).
Proof.
  intros Hk [Hlen Hcount].
  assert (Hsmall : Z.of_nat (length (rcvbuf d)) < 2 ^ 32 - 3)
    by (rewrite Hlen; unfold RCVBUF_SIZE, CONNECTOR_MAX_MSG_SIZE; lia).
  assert (Hr : bcount d < 2 ^ 32 - 3) by lia.
  destruct (frame_walk_exists (rcvbuf d) (S (Z.to_nat (bcount d))) 0 (bcount d))
    as [frames Hw]; [lia | exact Hr |].
  exists frames. split; [exact Hw |]. split; [| split; [| split]].
  - eapply Forall_impl; [| exact (frame_walk_inside (rcvbuf d) _ _ _ Hw Hr)].
    intros h (_ & len & H1 & H2 & H3). exists len. repeat split; [assumption .. | lia].
  - unfold receive_turn. rewrite Hk. cbn [Z.eqb].
    apply (frame_loop_follows_walk (rcvbuf d) Hsmall fl fs _ _ _ Hw);
      [lia | lia | lia | apply same_visible_refl].
  - intro len. exact (walk_end_fails (rcvbuf d) 0 (bcount d) frames Hw len).
  - unfold receive_turn. rewrite Hk. cbn [Z.eqb].
    destruct (frame_loop_reads (rcvbuf d) fl fs 0 (bcount d) frames Hw
                (S (Z.to_nat (bcount d))) w) as (new & E & F);
      [lia | lia | exact Hsmall | lia |].
    now rewrite (new_reads_app _ _ _ E).
Qed.

(* ------------------------------------------------------------------ *)
(** * The resolver at its limits *)

(** C4.  The example of the specification holds, but bytes of value 128
    and above are blanked as well: read as plain char they are negative,
    hence below 32.  The UTF-8 bytes C3 A9 of "cafe" with an acute accent
    come out as two spaces. *)
Theorem high_bytes_blanked :
  cmdline_of (get_cmdline (fs_const (Reads demo_raw)) 20 init_globals)
  = Some (lit "ab cd ef")
  /\ cmdline_of (get_cmdline (fs_const (Reads (lit "caf" ++ [Byte.xc3; Byte.xa9])))
                             20 init_globals)
     = Some (lit "caf  ").
Proof. split; vm_compute; reflexivity. Qed.

(** C7.  When open succeeds and read returns -1 the resolver returns the
    empty string, not the placeholder; when open fails it returns the
    placeholder. *)
Theorem read_failure_no_placeholder :
  cmdline_of (get_cmdline (fs_const ReadFails) 20 init_globals) = Some []
  /\ cmdline_of (get_cmdline (fs_const OpenFails) 20 init_globals) = Some (lit "<N/A>").
Proof. split; vm_compute; reflexivity. Qed.

(** C9.  A read of n < 4096 bytes puts the NUL at index n of the array;
    a read of 4096 bytes puts it at index 4096, outside the array. *)
Theorem full_read_writes_past_end :
  (exists g', get_cmdline (fs_const (Reads (repeat Byte.x61 4095))) 20 init_globals = Done g'
              /\ char_at (cmdlinebuf g') 4095 = Some Byte.x00
              /\ length (cmdlinebuf g') = CMDLINE_SIZE)
  /\ get_cmdline (fs_const (Reads (repeat Byte.x61 4096))) 20 init_globals
     = Undefined (CharWriteOutOfBounds 4096).
Proof.
  split.
  - eexists. split; [vm_compute; reflexivity |].
    split; vm_compute; reflexivity.
  - vm_compute. reflexivity.
Qed.

(* ------------------------------------------------------------------ *)
(** * The theorems at concrete datagrams *)



Lemma overrun_line_witness :
  rcv_load overrun_buf (0 + off_nlmsg_type) 2 = Some NLMSG_OVERRUN
  /\ stdout_of (dispatch_nl exec_only worker_fs overrun_buf 0 init_world)
     = Some (lit "overrun" ++ [Byte.x0a]).
Proof.
  assert (Hty : rcv_load overrun_buf (0 + off_nlmsg_type) 2 = Some NLMSG_OVERRUN)
    by (vm_compute; reflexivity).
  split; [exact Hty |].
  rewrite (overrun_line exec_only worker_fs overrun_buf 0 init_world Hty).
  reflexivity.
Defined.

Lemma frame_classification_witness :
  rcv_load fork_buf (0 + off_nlmsg_type) 2 = Some NLMSG_DONE
  /\ rcv_load fork_buf (NLMSG_DATA 0 + off_id_idx) 4 = Some CN_IDX_PROC
  /\ rcv_load fork_buf (NLMSG_DATA 0 + off_id_val) 4 = Some CN_VAL_PROC
  /\ dispatch_nl fork_only worker_fs fork_buf 0 init_world
     = dispatch_proc_event fork_only worker_fs fork_buf (NLMSG_DATA 0 + off_cn_data)
         (logged init_world [(0 + off_nlmsg_type, 2%nat);
                             (NLMSG_DATA 0 + off_id_idx, 4%nat);
                             (NLMSG_DATA 0 + off_id_val, 4%nat)]).
Proof.
  assert (Hty : rcv_load fork_buf (0 + off_nlmsg_type) 2 = Some NLMSG_DONE)
    by (vm_compute; reflexivity).
  assert (Hidx : rcv_load fork_buf (NLMSG_DATA 0 + off_id_idx) 4 = Some CN_IDX_PROC)
    by (vm_compute; reflexivity).
  assert (Hval : rcv_load fork_buf (NLMSG_DATA 0 + off_id_val) 4 = Some CN_VAL_PROC)
    by (vm_compute; reflexivity).
  split; [exact Hty |]. split; [exact Hidx |]. split; [exact Hval |].
  destruct (frame_classification fork_only worker_fs fork_buf 0 init_world
              NLMSG_DONE Hty) as [_ Hdata].
  assert (H1 : NLMSG_DONE <> NLMSG_ERROR) by (vm_compute; discriminate).
  assert (H2 : NLMSG_DONE <> NLMSG_NOOP) by (vm_compute; discriminate).
  assert (H3 : NLMSG_DONE <> NLMSG_OVERRUN) by (vm_compute; discriminate).
  destruct (Hdata H1 H2 H3 CN_IDX_PROC Hidx) as [_ Hproc].
  destruct (Hproc eq_refl CN_VAL_PROC Hval) as [_ Hgo].
  exact (Hgo eq_refl).
Defined.

Lemma foreign_sender_skipped_witness :
  nl_pid (mkDatagram 4242 76 fork_buf) <> 0
  /\ receive_turn fork_only worker_fs (mkDatagram 4242 76 fork_buf) init_world
     = Ok tt init_world.
Proof.
  assert (H : nl_pid (mkDatagram 4242 76 fork_buf) <> 0) by (vm_compute; discriminate).
  split; [exact H |].
  exact (foreign_sender_skipped fork_only worker_fs (mkDatagram 4242 76 fork_buf)
           init_world H).
Defined.

Lemma decode_reads_bounded_witness :
  decode fork_buf (16 + off_cn_data) = Some (Fork 10 10 20 20)
  /\ declared_len fork_buf 16 = Some 40
  /\ payload_need fork_only fork_buf (16 + off_cn_data) <= 40
  /\ payload_reads fork_only worker_fs fork_buf 16 init_world
     = [(36, 4%nat); (60, 4%nat); (64, 4%nat); (52, 4%nat); (60, 4%nat); (64, 4%nat)]
  /\ reads_within_declared fork_only worker_fs fork_buf 16 init_world.
Proof.
  assert (Hdec : decode fork_buf (16 + off_cn_data) = Some (Fork 10 10 20 20))
    by (vm_compute; reflexivity).
  assert (Hlen : declared_len fork_buf 16 = Some 40) by (vm_compute; reflexivity).
  assert (Hneed : payload_need fork_only fork_buf (16 + off_cn_data) <= 40)
    by (vm_compute; discriminate).
  destruct (decode_reads_bounded fork_only worker_fs fork_buf 16 init_world)
    as (Hexact & _ & _ & Hin).
  split; [exact Hdec |]. split; [exact Hlen |]. split; [exact Hneed |].
  split; [exact (Hexact _ Hdec) | exact (Hin 40 Hlen Hneed)].
Defined.

Lemma frame_iteration_witness :
  nl_pid (mkDatagram 0 76 fork_buf) = 0
  /\ received (mkDatagram 0 76 fork_buf)
  /\ exists frames,
       frame_walk fork_buf 0 76 frames
       /\ Forall (fun h => exists len,
                    rcv_load fork_buf (h + off_nlmsg_len) 4 = Some len
                    /\ sizeof_nlmsghdr <= len /\ h + len <= 76) frames
       /\ similar (receive_turn fork_only worker_fs (mkDatagram 0 76 fork_buf) init_world)
                  (for_each (dispatch_nl fork_only worker_fs fork_buf) frames init_world)
       /\ (forall len,
             ~ frame_ok fork_buf (walk_end fork_buf 0 frames)
                        (76 - walk_end fork_buf 0 frames) len)
       /\ Forall (frame_read frames (walk_end fork_buf 0 frames))
                 (new_reads init_world
                    (world_of (receive_turn fork_only worker_fs
                                 (mkDatagram 0 76 fork_buf) init_world))).
Proof.
  assert (Hk : nl_pid (mkDatagram 0 76 fork_buf) = 0) by reflexivity.
  assert (Hr : received (mkDatagram 0 76 fork_buf)).
  { split; [vm_compute; reflexivity |].
    split; vm_compute; discriminate. }
  split; [exact Hk |]. split; [exact Hr |].
  exact (frame_iteration fork_only worker_fs (mkDatagram 0 76 fork_buf) init_world Hk Hr).
Defined.

(** C6, as stated, fails: the rest of a datagram is not left
    uninterpreted.  In [cut_datagram] the frame at 0 passes the checks
    with its 40 bytes and the header at 40 fails them (200 bytes
    declared, 28 left), so the walk ends at 40.  The dispatch of the
    frame at 0 reads parent_pid from bytes 52..55 (the nlmsg_pid of the
    failing header), child_pid from 60..63 and child_tgid from 64..67,
    and prints them. *)
Lemma rest_is_interpreted :
  nl_pid cut_datagram = 0
  /\ received cut_datagram
  /\ frame_walk (rcvbuf cut_datagram) 0 (bcount cut_datagram) [0]
  /\ walk_end (rcvbuf cut_datagram) 0 [0] = 40
  /\ rcv_load (rcvbuf cut_datagram) (40 + off_nlmsg_len) 4 = Some 200
  /\ new_reads init_world
       (world_of (receive_turn fork_only (fs_const OpenFails) cut_datagram init_world))
     = [(0, 4%nat); (0, 4%nat); (4, 2%nat); (16, 4%nat); (20, 4%nat); (36, 4%nat);
        (60, 4%nat); (64, 4%nat); (52, 4%nat); (60, 4%nat); (64, 4%nat);
        (0, 4%nat); (0, 4%nat); (40, 4%nat); (40, 4%nat)]
  /\ stdout_of (receive_turn fork_only (fs_const OpenFails) cut_datagram init_world)
     = Some (lit "Fork 10 20 <N/A>" ++ [Byte.x0a])
  /\ ~ rest_discarded fork_only (fs_const OpenFails) cut_datagram init_world.
Proof.
  assert (Hwalk : frame_walk (rcvbuf cut_datagram) 0 (bcount cut_datagram) [0]).
  { apply walk_next with (len := 40).
    - split; [vm_compute; discriminate |].
      split; [vm_compute; reflexivity |].
      split; vm_compute; discriminate.
    - apply walk_stop. intros len (_ & E & _ & Hle).
      assert (E' : rcv_load (rcvbuf cut_datagram) (0 + NLMSG_ALIGN 40 + off_nlmsg_len) 4
                   = Some 200) by (vm_compute; reflexivity).
      rewrite E' in E. injection E as <-.
      vm_compute in Hle. apply Hle. reflexivity. }
  assert (Hend : walk_end (rcvbuf cut_datagram) 0 [0] = 40)
    by (vm_compute; reflexivity).
  assert (Hreads :
            new_reads init_world
              (world_of (receive_turn fork_only (fs_const OpenFails)
                           cut_datagram init_world))
            = [(0, 4%nat); (0, 4%nat); (4, 2%nat); (16, 4%nat); (20, 4%nat);
               (36, 4%nat); (60, 4%nat); (64, 4%nat); (52, 4%nat); (60, 4%nat);
               (64, 4%nat); (0, 4%nat); (0, 4%nat); (40, 4%nat); (40, 4%nat)])
    by (vm_compute; reflexivity).
  split; [reflexivity |].
  split; [split; [vm_compute; reflexivity | split; vm_compute; discriminate] |].
  split; [exact Hwalk |].
  split; [exact Hend |].
  split; [vm_compute; reflexivity |].
  split; [exact Hreads |].
  split; [vm_compute; reflexivity |].
  intro H. specialize (H [0] Hwalk).
  rewrite Hreads, Hend in H.
  rewrite Forall_forall in H.
  destruct (H (52, 4%nat)) as [Hbad | Hbad].
  - cbn [In]. do 8 right. now left.
  - cbn [fst snd] in Hbad. lia.
  - discriminate Hbad.
Qed.

(** C3, as stated, fails also for a payload that holds the whole head of
    a struct proc_event.  The connector message of [head_only_buf]
    declares a payload of sixteen bytes, the frame around it has 52; the
    sixteen bytes after it are the header of the next frame.  Under
    forkflag the switch reads child_pid from payload bytes 24..27 and
    prints the next frame's nlmsg_len as the parent. *)
Lemma short_payload_overread :
  rcv_load head_only_buf (0 + off_nlmsg_len) 4 = Some 52
  /\ declared_len head_only_buf 16 = Some 16
  /\ payload_reads fork_only (fs_const OpenFails) head_only_buf 16 init_world
     = [(36, 4%nat); (60, 4%nat); (64, 4%nat); (52, 4%nat); (60, 4%nat); (64, 4%nat)]
  /\ stdout_of (dispatch_nl fork_only (fs_const OpenFails) head_only_buf 0 init_world)
     = Some (lit "Fork 16 0 <N/A>" ++ [Byte.x0a])
  /\ ~ reads_within_declared fork_only (fs_const OpenFails) head_only_buf 16 init_world.
Proof.
  assert (Hlen : declared_len head_only_buf 16 = Some 16) by (vm_compute; reflexivity).
  assert (Hreads : payload_reads fork_only (fs_const OpenFails) head_only_buf 16 init_world
                   = [(36, 4%nat); (60, 4%nat); (64, 4%nat);
                      (52, 4%nat); (60, 4%nat); (64, 4%nat)])
    by (vm_compute; reflexivity).
  split; [vm_compute; reflexivity |].
  split; [exact Hlen |].
  split; [exact Hreads |].
  split; [vm_compute; reflexivity |].
  intro H. specialize (H 16 Hlen).
  rewrite Hreads in H.
  inversion H as [| r rs _ Hrest]; subst.
  inversion Hrest as [| r' rs' [_ Hbad] _]; subst.
  vm_compute in Hbad. apply Hbad. reflexivity.
Qed.

(** The same with a declared payload of four bytes. *)
Example tiny_payload_overread :
  declared_len short_buf 16 = Some 4
  /\ ~ reads_within_declared fork_only (fs_const OpenFails) short_buf 16 init_world.
Proof.
  assert (Hlen : declared_len short_buf 16 = Some 4) by (vm_compute; reflexivity).
  split; [exact Hlen |].
  intro H. specialize (H 4 Hlen).
  assert (Hreads : payload_reads fork_only (fs_const OpenFails) short_buf 16 init_world
                   = [(36, 4%nat); (60, 4%nat); (64, 4%nat);
                      (52, 4%nat); (60, 4%nat); (64, 4%nat)])
    by (vm_compute; reflexivity).
  rewrite Hreads in H.
  inversion H as [| r rs _ Hrest]; subst.
  inversion Hrest as [| r' rs' [_ Hbad] _]; subst.
  vm_compute in Hbad. apply Hbad. reflexivity.
Qed.

(* ------------------------------------------------------------------ *)
(** * Further properties: what printf's conversions produce *)

Section Decimals.

Import Decimal DecimalFacts DecimalPos.

Lemma length_lit (s : string) : length (lit s) = String.length s.
Proof.
  unfold lit, list_byte_of_string. rewrite length_map.
  induction s as [|c s IH]; simpl; [reflexivity | now rewrite IH].
Qed.

Lemma lit_string (c : Ascii.ascii) (s : string) :
  lit (String c s) = Ascii.byte_of_ascii c :: lit s.
Proof. reflexivity. Qed.

Lemma length_string_of_uint (d : uint) :
  String.length (NilEmpty.string_of_uint d) = nb_digits d.
Proof. induction d; simpl; congruence. Qed.

Lemma clean_string_of_uint (d : uint) :
  Forall clean (lit (NilEmpty.string_of_uint d)).
Proof.
  induction d; cbn [NilEmpty.string_of_uint]; [constructor | ..];
    rewrite lit_string; (constructor; [vm_compute; discriminate | assumption]).
Qed.

(** One more decimal digit for ten times the number, plus a digit. *)
Lemma digits_tenfold (q r : N) :
  (0 < q)%N -> (r < 10)%N ->
  nb_digits (Unsigned.to_lu (10 * q + r)) = S (nb_digits (Unsigned.to_lu q)).
Proof.
  intros Hq Hr.
  destruct q as [|p]; [lia |].
  assert (T : Unsigned.to_lu (10 * N.pos p) = D0 (Unsigned.to_lu (N.pos p)))
    by apply Unsigned.to_ldec_tenfold.
  assert (Hcases : (r = 0 \/ r = 1 \/ r = 2 \/ r = 3 \/ r = 4 \/ r = 5 \/ r = 6
                    \/ r = 7 \/ r = 8 \/ r = 9)%N) by lia.
  set (m := (10 * N.pos p)%N) in *.
  destruct Hcases as [->|[->|[->|[->|[->|[->|[->|[->|[->| ->]]]]]]]]].
  - rewrite N.add_0_r, T. reflexivity.
  - replace (m + 1)%N with (N.succ m) by lia.
    rewrite !Unsigned.to_lu_succ, T. reflexivity.
  - replace (m + 2)%N with (N.succ (N.succ m)) by lia.
    rewrite !Unsigned.to_lu_succ, T. reflexivity.
  - replace (m + 3)%N with (N.succ (N.succ (N.succ m))) by lia.
    rewrite !Unsigned.to_lu_succ, T. reflexivity.
  - replace (m + 4)%N with (N.succ (N.succ (N.succ (N.succ m)))) by lia.
    rewrite !Unsigned.to_lu_succ, T. reflexivity.
  - replace (m + 5)%N with (N.succ (N.succ (N.succ (N.succ (N.succ m))))) by lia.
    rewrite !Unsigned.to_lu_succ, T. reflexivity.
  - replace (m + 6)%N
      with (N.succ (N.succ (N.succ (N.succ (N.succ (N.succ m)))))) by lia.
    rewrite !Unsigned.to_lu_succ, T. reflexivity.
  - replace (m + 7)%N
      with (N.succ (N.succ (N.succ (N.succ (N.succ (N.succ (N.succ m))))))) by lia.
    rewrite !Unsigned.to_lu_succ, T. reflexivity.
  - replace (m + 8)%N
      with (N.succ (N.succ (N.succ (N.succ (N.succ (N.succ (N.succ (N.succ m))))))))
      by lia.
    rewrite !Unsigned.to_lu_succ, T. reflexivity.
  - replace (m + 9)%N
      with (N.succ (N.succ (N.succ (N.succ (N.succ (N.succ (N.succ (N.succ
              (N.succ m)))))))))
      by lia.
    rewrite !Unsigned.to_lu_succ, T. reflexivity.
Qed.

Lemma digits_bound (n : nat) :
  forall m : N, (0 < m < 10 ^ N.of_nat n)%N ->
                (nb_digits (Unsigned.to_lu m) <= n)%nat.
Proof.
  induction n as [|n IH]; intros m Hm.
  - simpl in Hm. lia.
  - rewrite Nnat.Nat2N.inj_succ, N.pow_succ_r' in Hm by lia.
    pose proof (N.div_mod m 10 ltac:(lia)) as Hdm.
    pose proof (N.mod_lt m 10 ltac:(lia)) as Hr.
    destruct (N.eq_dec (m / 10) 0) as [Hz | Hnz].
    + rewrite Hz, N.mul_0_r, N.add_0_l in Hdm.
      assert (Hcases : (m = 1 \/ m = 2 \/ m = 3 \/ m = 4 \/ m = 5 \/ m = 6
                        \/ m = 7 \/ m = 8 \/ m = 9)%N) by lia.
      destruct Hcases as [->|[->|[->|[->|[->|[->|[->|[->| ->]]]]]]]]; simpl; lia.
    + rewrite Hdm. rewrite digits_tenfold by lia.
      apply le_n_S. apply IH. split; [lia |].
      apply N.Div0.div_lt_upper_bound. lia.
Qed.

Lemma length_fmt_pos (p : positive) :
  (N.pos p < 10 ^ 10)%N ->
  (String.length (NilZero.string_of_uint (Pos.to_uint p)) <= 10)%nat.
Proof.
  intro H.
  assert (E : NilZero.string_of_uint (Pos.to_uint p)
              = NilEmpty.string_of_uint (Pos.to_uint p)).
  { pose proof (Unsigned.to_uint_nonnil p) as Hn.
    unfold NilZero.string_of_uint. destruct (Pos.to_uint p); [contradiction | ..];
      reflexivity. }
  rewrite E, length_string_of_uint.
  unfold Pos.to_uint. rewrite nb_digits_rev.
  apply (digits_bound 10 (N.pos p)). split; [lia | exact H].
Qed.

(** The [%d] conversion of an int takes at most eleven characters. *)
Lemma length_fmt_d (z : Z) :
  - 2 ^ 31 <= z < 2 ^ 31 -> (length (fmt_d z) <= 11)%nat.
Proof.
  intro H. unfold fmt_d. rewrite length_lit.
  destruct z as [|p|p]; cbn [Z.to_int NilZero.string_of_int].
  - simpl. lia.
  - pose proof (length_fmt_pos p ltac:(lia)). lia.
  - cbn [String.length]. pose proof (length_fmt_pos p ltac:(lia)). lia.
Qed.

Lemma clean_fmt_d (z : Z) : Forall clean (fmt_d z).
Proof.
  unfold fmt_d.
  assert (U : forall d, Forall clean (lit (NilZero.string_of_uint d))).
  { intro d. destruct d; try apply clean_string_of_uint.
    cbn. constructor; [vm_compute; discriminate | constructor]. }
  destruct z as [|p|p]; cbn [Z.to_int NilZero.string_of_int]; try apply U.
  rewrite lit_string. constructor; [vm_compute; discriminate | apply U].
Qed.

End Decimals.

(* ------------------------------------------------------------------ *)
(** * Further properties of get_cmdline *)

Lemma clean_blank (b : byte) : clean (blank b).
Proof. destruct b; vm_compute; discriminate. Qed.

Lemma clean_placeholder : Forall clean placeholder.
Proof. vm_compute. repeat (constructor; [discriminate |]). constructor. Qed.

Lemma get_cmdline_done (fs : procfs) (id : Z) (g g' : globals) :
  length (cmdlinebuf g) = CMDLINE_SIZE ->
  get_cmdline fs id g = Done g' ->
  c_string (cmdlinebuf g') = Some (lookup_string (fs (lookups g) (proc_path id)))
  /\ length (cmdlinebuf g') = CMDLINE_SIZE
  /\ lookups g' = S (lookups g)
  /\ procname g' = proc_path id.
Proof.
  intros Hsize Hrun.
  destruct (fs (lookups g) (proc_path id)) as [| | data] eqn:Hfs.
  - destruct (get_cmdline_defined fs id g Hsize) as (g1 & s & E & Hs & Hl & Hp).
    { intros data Hd. congruence. }
    rewrite E in Hrun. injection Hrun as <-.
    unfold get_cmdline in E. rewrite Hfs in E. injection E as <-.
    split; [reflexivity |]. split; [exact Hl |]. split; reflexivity.
  - destruct (get_cmdline_read_fails fs id g Hsize Hfs) as (g1 & E & Hs & _).
    rewrite E in Hrun. injection Hrun as <-.
    destruct (get_cmdline_defined fs id g Hsize) as (g2 & s & E2 & _ & Hl & Hp).
    { intros data Hd. congruence. }
    rewrite E in E2. injection E2 as <-.
    split; [exact Hs |]. split; [exact Hl |]. split; [| exact Hp].
    unfold get_cmdline in E. rewrite Hfs in E.
    destruct (char_store (cmdlinebuf g) 0 Byte.x00); [| discriminate].
    injection E as <-. reflexivity.
  - destruct (Nat.lt_ge_cases (length data) CMDLINE_SIZE) as [Hshort | Hfull].
    + rewrite (get_cmdline_short fs id g Hsize data Hfs Hshort) in Hrun.
      injection Hrun as <-.
      split; [exact (c_string_blanked _ _) |].
      split; [| split; reflexivity].
      change (length (map blank data ++ Byte.x00
                        :: skipn (S (length data)) (cmdlinebuf g)) = CMDLINE_SIZE).
      rewrite length_app, length_map, length_cons, length_skipn, Hsize. lia.
    + rewrite (get_cmdline_full fs id g Hsize data Hfs Hfull) in Hrun. discriminate.
Qed.

Lemma get_cmdline_fault (fs : procfs) (id : Z) (g : globals) (f : fault) :
  length (cmdlinebuf g) = CMDLINE_SIZE ->
  get_cmdline fs id g = Undefined f ->
  f = CharWriteOutOfBounds CMDLINE_SIZE.
Proof.
  intros Hsize Hrun.
  destruct (fs (lookups g) (proc_path id)) as [| | data] eqn:Hfs.
  - destruct (get_cmdline_open_fails fs id g Hfs) as (g1 & E & _). congruence.
  - destruct (get_cmdline_read_fails fs id g Hsize Hfs) as (g1 & E & _). congruence.
  - destruct (Nat.lt_ge_cases (length data) CMDLINE_SIZE) as [Hshort | Hfull].
    + rewrite (get_cmdline_short fs id g Hsize data Hfs Hshort) in Hrun. discriminate.
    + rewrite (get_cmdline_full fs id g Hsize data Hfs Hfull) in Hrun. congruence.
Qed.

Lemma clean_lookup_string (f : proc_file) : Forall clean (lookup_string f).
Proof.
  destruct f as [| | data]; cbn [lookup_string].
  - apply clean_placeholder.
  - constructor.
  - induction data; cbn [map]; constructor; [apply clean_blank | assumption].
Qed.

(** X1.  A lookup that is defined returns a terminated string that
    depends on the answer of the file system alone (the placeholder, the
    empty string, or the blanked bytes of the file), whatever the array
    held before; the string holds no control character; the array keeps
    its size. *)
Theorem lookup_string_clean (fs : procfs) (id : Z) (g g' : globals) :
  length (cmdlinebuf g) = CMDLINE_SIZE ->
  get_cmdline fs id g = Done g' ->
  c_string (cmdlinebuf g') = Some (lookup_string (fs (lookups g) (proc_path id)))
  /\ Forall clean (lookup_string (fs (lookups g) (proc_path id)))
  /\ ~ In Byte.x0a (lookup_string (fs (lookups g) (proc_path id)))
  /\ length (cmdlinebuf g') = CMDLINE_SIZE.
Proof.
  intros Hsize Hrun.
  destruct (get_cmdline_done fs id g g' Hsize Hrun) as (Hs & Hl & _ & _).
  split; [exact Hs |]. split; [apply clean_lookup_string |]. split; [| exact Hl].
  intro Hin.
  pose proof (clean_lookup_string (fs (lookups g) (proc_path id))) as Hc.
  rewrite Forall_forall in Hc. specialize (Hc _ Hin).
  vm_compute in Hc. apply Hc. reflexivity.
Qed.

(** X2.  The path that sprintf writes to procname, with its terminator,
    takes at most 26 of the 50 bytes of the array, for every value of
    the int [id]. *)
Theorem procname_fits (fs : procfs) (id : Z) (g g' : globals) :
  - 2 ^ 31 <= id < 2 ^ 31 ->
  get_cmdline fs id g = Done g' ->
  procname g' = proc_path id
  /\ (length (procname g' ++ [Byte.x00]) <= 26)%nat.
Proof.
  intros Hid Hrun.
  assert (Hp : procname g' = proc_path id).
  { unfold get_cmdline in Hrun.
    destruct (fs (lookups g) (proc_path id)).
    - injection Hrun as <-. reflexivity.
    - destruct (char_store (cmdlinebuf g) 0 Byte.x00); [| discriminate].
      injection Hrun as <-. reflexivity.
    - destruct (blank_controls _ _ _) as [[c buf] |]; [| discriminate].
      cbn [obind] in Hrun.
      destruct (char_store buf c Byte.x00); [| discriminate].
      injection Hrun as <-. reflexivity. }
  split; [exact Hp |].
  rewrite Hp. unfold proc_path.
  rewrite !length_app, !length_lit.
  pose proof (length_fmt_d id Hid). cbn [String.length length]. lia.
Qed.

(* ------------------------------------------------------------------ *)
(** * Rules for runs *)

Section Rules.

Context {A B : Type}.
Variable Q : B -> world -> Prop.
Variable F : fault -> world -> Prop.

Lemma sat_bind (m : M A) (k : A -> M B) (w : world) :
  run_sat m w (fun a w1 => run_sat (k a) w1 Q F) F ->
  run_sat (bind m k) w Q F.
Proof. unfold run_sat, bind. destruct (m w); trivial. Qed.

Lemma sat_ret (b : B) (w : world) : Q b w -> run_sat (ret b) w Q F.
Proof. trivial. Qed.

Lemma sat_crash (f : fault) (w : world) : F f w -> run_sat (crash f) w Q F.
Proof. trivial. Qed.

End Rules.

Lemma sat_weaken {A} (m : M A) (w : world)
      (Q Q' : A -> world -> Prop) (F F' : fault -> world -> Prop) :
  run_sat m w Q F ->
  (forall a w', Q a w' -> Q' a w') ->
  (forall f w', F f w' -> F' f w') ->
  run_sat m w Q' F'.
Proof. unfold run_sat. destruct (m w); auto. Qed.

Lemma sat_rd (buf : list byte) (off : Z) (n : nat) (w : world)
      (Q : Z -> world -> Prop) (F : fault -> world -> Prop) :
  (forall v, rcv_load buf off n = Some v -> Q v (logged w [(off, n)])) ->
  (rcv_load buf off n = None -> F (ReadOutOfBounds off n) (logged w [(off, n)])) ->
  run_sat (rd buf off n) w Q F.
Proof.
  intros HQ HF. unfold run_sat, rd.
  destruct (rcv_load buf off n); auto.
Qed.

Lemma sat_rd_pid (buf : list byte) (off : Z) (w : world)
      (Q : Z -> world -> Prop) (F : fault -> world -> Prop) :
  (forall v, pid_at buf off = Some v -> Q v (logged w [(off, 4%nat)])) ->
  (rcv_load buf off 4 = None -> F (ReadOutOfBounds off 4) (logged w [(off, 4%nat)])) ->
  run_sat (rd_pid buf off) w Q F.
Proof.
  intros HQ HF. unfold rd_pid. apply sat_bind, sat_rd; [| exact HF].
  intros v Hv. apply sat_ret. apply HQ. unfold pid_at. now rewrite Hv.
Qed.

Lemma sat_put (bs : list byte) (w : world)
      (Q : unit -> world -> Prop) (F : fault -> world -> Prop) :
  Q tt (mkWorld (gl w) (stdout w ++ bs) (rd_log w)) ->
  run_sat (put bs) w Q F.
Proof. trivial. Qed.

Lemma sat_call (fs : procfs) (id : Z) (w : world)
      (Q : unit -> world -> Prop) (F : fault -> world -> Prop) :
  (forall g', get_cmdline fs id (gl w) = Done g' ->
              Q tt (mkWorld g' (stdout w) (rd_log w))) ->
  (forall f, get_cmdline fs id (gl w) = Undefined f -> F f w) ->
  run_sat (call_get_cmdline fs id) w Q F.
Proof.
  intros HQ HF. unfold run_sat, call_get_cmdline.
  destruct (get_cmdline fs id (gl w)); auto.
Qed.

Lemma sat_arg (w : world)
      (Q : list byte -> world -> Prop) (F : fault -> world -> Prop) :
  (forall s, c_string (cmdlinebuf (gl w)) = Some s -> Q s w) ->
  (c_string (cmdlinebuf (gl w)) = None -> F Unterminated w) ->
  run_sat arg_cmdline w Q F.
Proof.
  intros HQ HF. unfold run_sat, arg_cmdline.
  destruct (c_string (cmdlinebuf (gl w))); auto.
Qed.

(** Walks through a run, leaving the conditions at its ends. *)
Lemma sat_assoc {A B C} (m : M A) (k : A -> M B) (k' : B -> M C) (w : world)
      (Q : C -> world -> Prop) (F : fault -> world -> Prop) :
  run_sat (bind m (fun a => bind (k a) k')) w Q F ->
  run_sat (bind (bind m k) k') w Q F.
Proof. unfold run_sat, bind. destruct (m w); trivial. Qed.

Ltac walk_step :=
  match goal with
  | |- run_sat (ret _) _ _ _ => apply sat_ret
  | |- run_sat (bind (ret _) _) _ _ _ => apply sat_bind; apply sat_ret
  | |- run_sat (bind (bind _ _) _) _ _ _ => apply sat_assoc
  | |- run_sat (bind (if ?c then _ else _) _) _ _ _ => destruct c eqn:?
  | |- run_sat (put _) _ _ _ => apply sat_put
  | |- run_sat (crash _) _ _ _ => apply sat_crash
  | |- run_sat (bind (rd_pid _ _) _) _ _ _ =>
      apply sat_bind; apply sat_rd_pid; [intros ? ? | intros ?]
  | |- run_sat (bind (rd _ _ _) _) _ _ _ =>
      apply sat_bind; apply sat_rd; [intros ? ? | intros ?]
  | |- run_sat (bind (call_get_cmdline _ _) _) _ _ _ =>
      apply sat_bind; apply sat_call; [intros ? ? | intros ? ?]
  | |- run_sat (bind arg_cmdline _) _ _ _ =>
      apply sat_bind; apply sat_arg; [intros ? ? | intros ?]
  | |- run_sat (if ?c then _ else _) _ _ _ => destruct c eqn:?
  end.

Ltac walk_run := repeat walk_step.

(* ------------------------------------------------------------------ *)
(** * What the dispatch of a frame does to the output *)

Lemma record_line_parts (body : list byte) :
  Forall clean body -> record_line (body ++ nl).
Proof. intro H. exists body. split; [reflexivity | exact H]. Qed.

Lemma clean_lit_space : Forall clean (lit " ").
Proof. vm_compute. repeat (constructor; [discriminate |]). constructor. Qed.

Lemma record_line2 (tag : string) (a b : Z) (s : list byte) :
  Forall clean (lit tag) -> Forall clean s -> record_line (line2 tag a b s).
Proof.
  intros Ht Hs. unfold line2.
  replace (lit tag ++ lit " " ++ fmt_d a ++ lit " " ++ fmt_d b ++ lit " " ++ s ++ [Byte.x0a])
    with ((lit tag ++ lit " " ++ fmt_d a ++ lit " " ++ fmt_d b ++ lit " " ++ s) ++ nl)
    by (unfold nl; now rewrite <- !app_assoc).
  apply record_line_parts.
  repeat (apply Forall_app; split);
    auto using clean_lit_space, clean_fmt_d.
Qed.

Lemma record_line1 (tag : string) (a : Z) (s : list byte) :
  Forall clean (lit tag) -> Forall clean s -> record_line (line1 tag a s).
Proof.
  intros Ht Hs. unfold line1.
  replace (lit tag ++ lit " " ++ fmt_d a ++ lit " " ++ s ++ [Byte.x0a])
    with ((lit tag ++ lit " " ++ fmt_d a ++ lit " " ++ s) ++ nl)
    by (unfold nl; now rewrite <- !app_assoc).
  apply record_line_parts.
  repeat (apply Forall_app; split);
    auto using clean_lit_space, clean_fmt_d.
Qed.

Lemma record_line_overrun : record_line (lit "overrun" ++ [Byte.x0a]).
Proof.
  apply record_line_parts.
  vm_compute. repeat (constructor; [discriminate |]). constructor.
Qed.

Lemma frame_effect_silent (w w' : world) :
  buf_ok w -> gl w' = gl w -> stdout w' = stdout w -> frame_effect w w'.
Proof.
  intros Hb Hg Ho. split.
  - unfold buf_ok. now rewrite Hg.
  - exists []. split; [simpl; lia |]. split; [constructor |].
    split; [simpl; now rewrite app_nil_r | now left].
Qed.

Lemma frame_effect_record (w : world) (g' : globals) (log : list (Z * nat))
      (fs : procfs) (id : Z) (s line : list byte) :
  buf_ok w ->
  get_cmdline fs id (gl w) = Done g' ->
  c_string (cmdlinebuf g') = Some s ->
  (Forall clean s -> record_line line) ->
  frame_effect w (mkWorld g' (stdout w ++ line) log).
Proof.
  intros Hb Hg Hs Hline.
  destruct (get_cmdline_done fs id (gl w) g' Hb Hg) as (Hs' & Hl & Hk & _).
  rewrite Hs in Hs'. injection Hs' as ->.
  split; [exact Hl |].
  exists [line]. split; [simpl; lia |].
  split; [constructor; [apply Hline, clean_lookup_string | constructor] |].
  split; [simpl; now rewrite app_nil_r |].
  right. split; [exact Hk | discriminate].
Qed.

Ltac clean_tag := vm_compute; repeat (constructor; [discriminate |]); constructor.

Lemma dispatch_nl_frame_effect (fl : filter_flags) (fs : procfs)
      (buf : list byte) (nlhdr : Z) (w : world) :
  buf_ok w ->
  run_sat (dispatch_nl fl fs buf nlhdr) w (fun _ w' => frame_effect w w') any_fault.
Proof.
  intro Hb.
  unfold dispatch_nl, dispatch_nl_cn, dispatch_proc_event, rd_u16, rd_u32.
  walk_run; try exact I;
    try (apply frame_effect_silent; [exact Hb | reflexivity | reflexivity]);
    cbn [gl stdout rd_log logged] in *.
  - split; [exact Hb |]. exists [lit "overrun" ++ [Byte.x0a]].
    split; [simpl; lia |].
    split; [constructor; [apply record_line_overrun | constructor] |].
    split; [cbn [stdout concat]; now rewrite app_nil_r | now left].
  - eapply frame_effect_record; [exact Hb | eassumption | eassumption |].
    apply record_line2. clean_tag.
  - eapply frame_effect_record; [exact Hb | eassumption | eassumption |].
    apply record_line2. clean_tag.
  - eapply frame_effect_record; [exact Hb | eassumption | eassumption |].
    apply record_line1. clean_tag.
  - eapply frame_effect_record; [exact Hb | eassumption | eassumption |].
    apply record_line2. clean_tag.
Qed.

Lemma outcome_record (w : world) (g' : globals) (log : list (Z * nat))
      (fs : procfs) (id : Z) (s head line : list byte) :
  buf_ok w ->
  get_cmdline fs id (gl w) = Done g' ->
  c_string (cmdlinebuf g') = Some s ->
  record_head head ->
  Forall clean head ->
  line = head ++ s ++ [Byte.x0a] ->
  dispatch_outcome fs w (mkWorld g' (stdout w ++ line) log).
Proof.
  intros Hb Hg Hs Hhead Hclean ->.
  destruct (get_cmdline_done fs id (gl w) g' Hb Hg) as (Hs' & _ & Hk & _).
  right. right. exists id, head, s. cbn [gl stdout].
  split; [exact Hg |]. split; [exact Hk |]. split; [exact Hs |].
  assert (Es : s = lookup_string (fs (lookups (gl w)) (proc_path id)))
    by congruence.
  split; [exact Es |]. split; [exact Hhead |].
  split; [| reflexivity].
  apply Forall_app. split; [exact Hclean |].
  rewrite Es. apply clean_lookup_string.
Qed.

Ltac clean_head :=
  repeat (apply Forall_app; split);
  auto using clean_lit_space, clean_fmt_d; clean_tag.

Lemma dispatch_nl_outcome (fl : filter_flags) (fs : procfs)
      (buf : list byte) (nlhdr : Z) (w : world) :
  buf_ok w ->
  run_sat (dispatch_nl fl fs buf nlhdr) w
          (fun _ w' => dispatch_outcome fs w w') any_fault.
Proof.
  intro Hb.
  unfold dispatch_nl, dispatch_nl_cn, dispatch_proc_event, rd_u16, rd_u32.
  walk_run; try exact I;
    try (left; split; reflexivity);
    cbn [gl stdout rd_log logged] in *.
  - right. left. split; reflexivity.
  - eapply outcome_record;
      [exact Hb | eassumption | eassumption | | | apply line2_text].
    + do 2 eexists. left. reflexivity.
    + clean_head.
  - eapply outcome_record;
      [exact Hb | eassumption | eassumption | | | apply line2_text].
    + do 2 eexists. right. left. reflexivity.
    + clean_head.
  - eapply outcome_record;
      [exact Hb | eassumption | eassumption | | | apply line1_text].
    + eexists. exists 0. right. right. left. reflexivity.
    + clean_head.
  - eapply outcome_record;
      [exact Hb | eassumption | eassumption | | | apply line2_text].
    + do 2 eexists. right. right. right. reflexivity.
    + clean_head.
Qed.

(** X3.  The dispatch of a frame, when it completes, has done one of
    three things.  It has printed nothing and left the globals as they
    were.  Or it has printed the line "overrun" and left the globals as
    they were: no call of get_cmdline.  Or it has called get_cmdline
    exactly once and printed, after the text of a Fork, Thread or Exec
    record, the string that call left in cmdlinebuf, and the newline;
    the line holds no control character before the newline.  In each
    case cmdlinebuf keeps its size. *)
Theorem dispatch_nl_effect (fl : filter_flags) (fs : procfs)
        (buf : list byte) (nlhdr : Z) (w w' : world) :
  buf_ok w ->
  dispatch_nl fl fs buf nlhdr w = Ok tt w' ->
  frame_effect w w' /\ dispatch_outcome fs w w'.
Proof.
  intros Hb Hrun.
  pose proof (dispatch_nl_frame_effect fl fs buf nlhdr w Hb) as H.
  pose proof (dispatch_nl_outcome fl fs buf nlhdr w Hb) as H'.
  unfold run_sat in H, H'. rewrite Hrun in H, H'. now split.
Qed.

(* ------------------------------------------------------------------ *)
(** * What the receive loop does to the output *)

Lemma lines_effect_refl (w w' : world) :
  buf_ok w -> gl w' = gl w -> stdout w' = stdout w -> lines_effect w w' [].
Proof.
  intros Hb Hg Ho. unfold lines_effect, buf_ok. rewrite Hg, Ho.
  split; [exact Hb |]. split; [constructor |].
  split; [simpl; now rewrite app_nil_r | simpl; lia].
Qed.

Lemma lines_effect_frame (w wa wb wc w' : world) (rest : list (list byte)) :
  gl wa = gl w -> stdout wa = stdout w ->
  frame_effect wa wb ->
  gl wc = gl wb -> stdout wc = stdout wb ->
  lines_effect wc w' rest ->
  exists first, (length first <= 1)%nat /\ lines_effect w w' (first ++ rest).
Proof.
  intros Hg Ho (Hb1 & first & Hlen & Hlines & Hout & Hlook) Hg2 Ho2
         (Hb2 & Hrest & Hout2 & Hlook2).
  exists first. split; [exact Hlen |].
  split; [exact Hb2 |]. split; [now apply Forall_app |].
  split.
  - rewrite Hout2, Ho2, Hout, Ho, concat_app, app_assoc. reflexivity.
  - rewrite Hg2 in Hlook2. rewrite length_app. rewrite <- Hg.
    destruct Hlook as [E | [E Hne]].
    + rewrite E in Hlook2. lia.
    + destruct first; [contradiction |]. simpl in *. lia.
Qed.

Lemma lines_effect_trans (w w1 w' : world) (l1 l2 : list (list byte)) :
  lines_effect w w1 l1 -> lines_effect w1 w' l2 -> lines_effect w w' (l1 ++ l2).
Proof.
  intros (Hb1 & H1 & O1 & K1) (Hb2 & H2 & O2 & K2).
  split; [exact Hb2 |]. split; [now apply Forall_app |].
  split.
  - rewrite O2, O1, concat_app, app_assoc. reflexivity.
  - rewrite length_app. lia.
Qed.

Lemma frame_loop_lines (fl : filter_flags) (fs : procfs) (buf : list byte)
      (fuel : nat) :
  forall pos remain w,
    buf_ok w -> remain < 2 ^ 32 - 3 ->
    run_sat (frame_loop fuel fl fs buf pos remain) w
      (fun _ w' => exists lines,
           lines_effect w w' lines
           /\ 16 * Z.of_nat (length lines) <= Z.max 0 remain)
      any_fault.
Proof.
  induction fuel as [|fuel IH]; intros pos remain w Hb Hr; cbn [frame_loop].
  - exact I.
  - unfold NLMSG_OK, NLMSG_NEXT, rd_u32.
    assert (Hstop : forall w0, gl w0 = gl w -> stdout w0 = stdout w ->
              exists lines, lines_effect w w0 lines
                            /\ 16 * Z.of_nat (length lines) <= Z.max 0 remain).
    { intros w0 Hg Ho. exists []. split; [now apply lines_effect_refl |].
      simpl. lia. }
    walk_run; try exact I; try (apply Hstop; reflexivity).
    apply sat_bind.
    match goal with
    | |- run_sat (dispatch_nl _ _ _ _) ?w0 _ _ =>
        assert (Hb0 : buf_ok w0) by exact Hb;
        apply (sat_weaken _ _ _ _ _ _ (dispatch_nl_frame_effect fl fs buf pos w0 Hb0));
          [| trivial]
    end.
    intros [] w1 Heff.
    walk_run; try exact I.
    cbn [fst snd].
    match goal with
    | Ha : rcv_load buf (pos + off_nlmsg_len) 4 = Some ?a,
      Hb' : rcv_load buf (pos + off_nlmsg_len) 4 = Some ?b,
      Hc : rcv_load buf (pos + off_nlmsg_len) 4 = Some ?c,
      Hd : rcv_load buf (pos + off_nlmsg_len) 4 = Some ?d |- _ =>
        rewrite Ha in Hb', Hc, Hd;
        injection Hb' as <-; injection Hc as <-; injection Hd as <-
    end.
    match goal with
    | H1 : (_ >=? sizeof_nlmsghdr) = true,
      H2 : (_ >=? sizeof_nlmsghdr) = true,
      H3 : (_ <=? remain) = true |- _ =>
        rewrite Z.geb_leb in H1, H2;
        apply Z.leb_le in H1, H2, H3; unfold sizeof_nlmsghdr in H1, H2
    end.
    match goal with
    | |- run_sat (frame_loop _ _ _ _ _ (remain - NLMSG_ALIGN ?l)) ?w2 _ _ =>
        pose proof (NLMSG_ALIGN_bounds l ltac:(lia)) as Ha;
        assert (Hb2 : buf_ok w2) by (destruct Heff as [Hbw _]; exact Hbw);
        apply (sat_weaken _ _ _ _ _ _
                 (IH (pos + NLMSG_ALIGN l) (remain - NLMSG_ALIGN l) w2 Hb2 ltac:(lia)));
          [| trivial]
    end.
    intros [] w' (rest & Hrest & Hcount).
    destruct (lines_effect_frame w _ w1 _ w' rest eq_refl eq_refl Heff
                eq_refl eq_refl Hrest) as (first & Hlen & Hall).
    exists (first ++ rest). split; [exact Hall |].
    rewrite length_app. lia.
Qed.

Lemma receive_turn_lines (fl : filter_flags) (fs : procfs) (d : datagram) (w : world) :
  received d -> buf_ok w ->
  run_sat (receive_turn fl fs d) w
    (fun _ w' => exists lines,
         lines_effect w w' lines
         /\ 16 * Z.of_nat (length lines) <= Z.max 0 (bcount d))
    any_fault.
Proof.
  intros [Hlen Hcount] Hb. unfold receive_turn.
  destruct (nl_pid d =? 0).
  - apply frame_loop_lines; [exact Hb |].
    unfold RCVBUF_SIZE, CONNECTOR_MAX_MSG_SIZE in Hcount. lia.
  - apply sat_ret. exists []. split; [now apply lines_effect_refl |]. simpl. lia.
Qed.

Lemma receive_all_lines (fl : filter_flags) (fs : procfs) (ds : list datagram) :
  Forall received ds ->
  forall w, buf_ok w ->
    run_sat (receive_all fl fs ds) w
      (fun _ w' => exists lines,
           lines_effect w w' lines
           /\ 16 * Z.of_nat (length lines) <= total_received ds)
      any_fault.
Proof.
  induction 1 as [|d ds Hd Hds IH]; intros w Hb; cbn [receive_all].
  - apply sat_ret. exists []. split; [now apply lines_effect_refl |]. simpl. lia.
  - change (total_received (d :: ds)) with (Z.max 0 (bcount d) + total_received ds).
    apply sat_bind.
    apply (sat_weaken _ _ _ _ _ _ (receive_turn_lines fl fs d w Hd Hb)); [| trivial].
    intros [] w1 (l1 & E1 & C1).
    assert (Hb1 : buf_ok w1) by (destruct E1 as [Hbw _]; exact Hbw).
    apply (sat_weaken _ _ _ _ _ _ (IH w1 Hb1)); [| trivial].
    intros [] w' (l2 & E2 & C2).
    exists (l1 ++ l2). split; [now apply lines_effect_trans with w1 |].
    rewrite length_app. lia.
Qed.

(** X4.  Over any sequence of datagrams the receive loop, as far as it
    runs, adds to stdout only whole lines without control characters,
    at most one for every 16 bytes received, and calls get_cmdline at
    most once for each line. *)
Theorem receive_all_effect (fl : filter_flags) (fs : procfs)
        (ds : list datagram) (w w' : world) :
  Forall received ds -> buf_ok w ->
  receive_all fl fs ds w = Ok tt w' ->
  exists lines,
    Forall record_line lines
    /\ stdout w' = stdout w ++ concat lines
    /\ 16 * Z.of_nat (length lines) <= total_received ds
    /\ (lookups (gl w') <= lookups (gl w) + length lines)%nat
    /\ buf_ok w'.
Proof.
  intros Hds Hb Hrun.
  pose proof (receive_all_lines fl fs ds Hds w Hb) as H.
  unfold run_sat in H. rewrite Hrun in H.
  destruct H as (lines & (Hb' & Hl & Ho & Hk) & Hc).
  exists lines. repeat (split; [assumption || lia |]). exact Hb'.
Qed.

(* ------------------------------------------------------------------ *)
(** * Where the receive loop reads *)

Lemma reads_span_refl (lo hi : Z) (w w' : world) :
  rd_log w' = rd_log w -> reads_span lo hi w w'.
Proof. intro H. exists []. split; [now rewrite app_nil_r | constructor]. Qed.

Lemma reads_span_trans (lo hi : Z) (w w1 w2 : world) :
  reads_span lo hi w w1 -> reads_span lo hi w1 w2 -> reads_span lo hi w w2.
Proof.
  intros (n1 & E1 & F1) (n2 & E2 & F2).
  exists (n1 ++ n2). split; [now rewrite E2, E1, app_assoc | now apply Forall_app].
Qed.

Lemma reads_span_weaken (lo hi lo' hi' : Z) (w w' : world) :
  lo' <= lo -> hi <= hi' -> reads_span lo hi w w' -> reads_span lo' hi' w w'.
Proof.
  intros Hl Hh (n & E & Fn). exists n. split; [exact E |].
  eapply Forall_impl; [| exact Fn]. intros r [? ?]. split; lia.
Qed.

Lemma tame_fault_weaken (buf : list byte) (lo hi lo' hi' : Z) (f : fault) :
  lo' <= lo -> hi <= hi' -> tame_fault buf lo hi f -> tame_fault buf lo' hi' f.
Proof.
  intros Hl Hh [E | (off & n & E & Hnone & [? ?])]; [now left |].
  right. exists off, n. split; [exact E |]. split; [exact Hnone |]. split; lia.
Qed.

Ltac reach :=
  unfold in_span, FRAME_REACH, NLMSG_DATA, off_nlmsg_type, off_nlmsg_len,
    off_id_idx, off_id_val, off_cn_data, off_what, off_fork_parent_pid,
    off_fork_child_pid, off_fork_child_tgid, off_exec_process_pid,
    off_exec_process_tgid, off_event_data;
  change NLMSG_HDRLEN with 16; cbn [fst snd]; lia.

Ltac span_of_log :=
  eexists; split;
  [ cbn [rd_log logged gl stdout]; rewrite <- ?app_assoc; reflexivity
  | repeat (constructor; [reach |]); constructor ].

Lemma dispatch_nl_tame (fl : filter_flags) (fs : procfs)
      (buf : list byte) (h : Z) (w : world) :
  buf_ok w ->
  run_sat (dispatch_nl fl fs buf h) w
    (fun _ w' => buf_ok w' /\ reads_span h (h + FRAME_REACH) w w')
    (fun f w' => reads_span h (h + FRAME_REACH) w w'
                 /\ tame_fault buf h (h + FRAME_REACH) f).
Proof.
  intro Hb.
  unfold dispatch_nl, dispatch_nl_cn, dispatch_proc_event, rd_u16, rd_u32.
  walk_run;
    try (split; [exact Hb | span_of_log]);
    try (split; [span_of_log |];
         right; do 2 eexists; split; [reflexivity |]; split; [assumption | reach]);
    cbn [gl stdout rd_log logged] in *;
    try match goal with
        | Hg : get_cmdline _ _ (gl w) = Done ?g |- buf_ok _ /\ _ =>
            destruct (get_cmdline_done _ _ _ _ Hb Hg) as (_ & Hl & _ & _);
            split; [exact Hl | span_of_log]
        | Hg : get_cmdline _ _ (gl w) = Undefined ?f |- _ /\ tame_fault _ _ _ _ =>
            split; [span_of_log | left; exact (get_cmdline_fault _ _ _ _ Hb Hg)]
        | Hg : get_cmdline _ _ (gl w) = Done ?g, Hs : c_string (cmdlinebuf ?g) = None |- _ =>
            destruct (get_cmdline_done _ _ _ _ Hb Hg) as (Hs' & _); congruence
        end.
Qed.

Lemma frame_loop_tame (fl : filter_flags) (fs : procfs) (buf : list byte)
      (fuel : nat) :
  forall pos remain w,
    buf_ok w -> 0 <= pos -> remain < 2 ^ 32 - 3 -> (Z.to_nat remain < fuel)%nat ->
    run_sat (frame_loop fuel fl fs buf pos remain) w
      (fun _ w' => buf_ok w'
                   /\ reads_span 0 (pos + remain + (FRAME_REACH - 16)) w w')
      (fun f w' => reads_span 0 (pos + remain + (FRAME_REACH - 16)) w w'
                   /\ tame_fault buf 0 (pos + remain + (FRAME_REACH - 16)) f).
Proof.
  induction fuel as [|fuel IH]; intros pos remain w Hb Hp Hr Hf; [lia |].
  cbn [frame_loop]. unfold NLMSG_OK, NLMSG_NEXT, rd_u32.
  assert (Hreach : FRAME_REACH = 68) by reflexivity.
  destruct (remain >=? sizeof_nlmsghdr) eqn:Hrem.
  2:{ walk_run. split; [exact Hb | now apply reads_span_refl]. }
  rewrite Z.geb_leb in Hrem. apply Z.leb_le in Hrem. unfold sizeof_nlmsghdr in Hrem.
  assert (Hhead : in_span 0 (pos + remain + (FRAME_REACH - 16))
                          (pos + off_nlmsg_len, 4%nat))
    by (unfold in_span, off_nlmsg_len; cbn [fst snd]; lia).
  assert (Hlog : forall w0 rs, Forall (in_span 0 (pos + remain + (FRAME_REACH - 16))) rs ->
                               reads_span 0 (pos + remain + (FRAME_REACH - 16)) w0
                                          (logged w0 rs)).
  { intros w0 rs Hrs. exists rs. split; [reflexivity | exact Hrs]. }
  assert (Hbad : forall w0 w1,
             reads_span 0 (pos + remain + (FRAME_REACH - 16)) w w0 ->
             rcv_load buf (pos + off_nlmsg_len) 4 = None ->
             w1 = logged w0 [(pos + off_nlmsg_len, 4%nat)] ->
             reads_span 0 (pos + remain + (FRAME_REACH - 16)) w w1
             /\ tame_fault buf 0 (pos + remain + (FRAME_REACH - 16))
                           (ReadOutOfBounds (pos + off_nlmsg_len) 4)).
  { intros w0 w1 Hspan Hnone ->. split.
    - eapply reads_span_trans; [exact Hspan |]. apply Hlog. constructor; [exact Hhead | constructor].
    - right. do 2 eexists. split; [reflexivity |]. now split. }
  apply sat_assoc, sat_bind, sat_rd.
  2:{ intro Hnone. apply (Hbad w _ (reads_span_refl _ _ _ _ eq_refl) Hnone eq_refl). }
  intros l Hl.
  set (w1 := logged w [(pos + off_nlmsg_len, 4%nat)]).
  assert (S1 : reads_span 0 (pos + remain + (FRAME_REACH - 16)) w w1)
    by (apply Hlog; constructor; [exact Hhead | constructor]).
  destruct (l >=? sizeof_nlmsghdr) eqn:Hl16.
  2:{ walk_run. split; [exact Hb | exact S1]. }
  rewrite Z.geb_leb in Hl16. apply Z.leb_le in Hl16. unfold sizeof_nlmsghdr in Hl16.
  apply sat_assoc, sat_bind, sat_rd.
  2:{ intro Hnone. congruence. }
  intros l' Hl'. rewrite Hl in Hl'. injection Hl' as <-.
  set (w2 := logged w1 [(pos + off_nlmsg_len, 4%nat)]).
  assert (S2 : reads_span 0 (pos + remain + (FRAME_REACH - 16)) w w2).
  { eapply reads_span_trans; [exact S1 |]. apply Hlog. constructor; [exact Hhead | constructor]. }
  apply sat_bind, sat_ret.
  destruct (l <=? remain) eqn:Hfit.
  2:{ walk_run. split; [exact Hb | exact S2]. }
  apply Z.leb_le in Hfit.
  apply sat_bind.
  assert (Hb2 : buf_ok w2) by exact Hb.
  apply (sat_weaken _ _ _ _ _ _ (dispatch_nl_tame fl fs buf pos w2 Hb2)).
  2:{ intros f w' [Hs Ht]. split.
      - eapply reads_span_trans; [exact S2 |].
        eapply reads_span_weaken; [| | exact Hs]; lia.
      - eapply tame_fault_weaken; [| | exact Ht]; lia. }
  intros [] w3 [Hb3 S3].
  assert (S3' : reads_span 0 (pos + remain + (FRAME_REACH - 16)) w w3).
  { eapply reads_span_trans; [exact S2 |].
    eapply reads_span_weaken; [| | exact S3]; lia. }
  apply sat_assoc, sat_bind, sat_rd.
  2:{ intro Hnone. congruence. }
  intros l1 Hl1. rewrite Hl in Hl1. injection Hl1 as <-.
  apply sat_assoc, sat_bind, sat_rd.
  2:{ intro Hnone. congruence. }
  intros l2 Hl2. rewrite Hl in Hl2. injection Hl2 as <-.
  apply sat_bind, sat_ret. cbn [fst snd].
  pose proof (NLMSG_ALIGN_bounds l ltac:(lia)) as Ha.
  match goal with
  | |- run_sat _ ?w4 _ _ =>
      assert (Hb4 : buf_ok w4) by exact Hb3;
      assert (S4 : reads_span 0 (pos + remain + (FRAME_REACH - 16)) w w4)
  end.
  { eapply reads_span_trans; [exact S3' |].
    eapply reads_span_trans; apply Hlog; (constructor; [exact Hhead | constructor]). }
  eapply sat_weaken;
    [apply (IH (pos + NLMSG_ALIGN l) (remain - NLMSG_ALIGN l) _ Hb4); lia | |].
  - intros [] w' [Hb' S']. split; [exact Hb' |].
    eapply reads_span_trans; [exact S4 |].
    eapply reads_span_weaken; [| | exact S']; lia.
  - intros f w' [S' T']. split.
    + eapply reads_span_trans; [exact S4 |].
      eapply reads_span_weaken; [| | exact S']; lia.
    + eapply tame_fault_weaken; [| | exact T']; lia.
Qed.

(** X5.  A turn of the receive loop reads the receive buffer only
    between its start and 52 bytes behind the received count.  When the
    count leaves 52 bytes of the buffer free, no read leaves the
    allocation, and the only undefined operation the turn can run into
    is the store behind the end of cmdlinebuf. *)
Theorem receive_turn_memory (fl : filter_flags) (fs : procfs)
        (d : datagram) (w : world) :
  received d -> buf_ok w ->
  reads_span 0 (Z.max 0 (bcount d) + 52) w (world_of (receive_turn fl fs d w))
  /\ (bcount d + 52 <= RCVBUF_SIZE ->
      match receive_turn fl fs d w with
      | Ok _ w' => buf_ok w'
      | Stuck f _ => f = CharWriteOutOfBounds CMDLINE_SIZE
      end).
Proof.
  intros [Hlen Hcount] Hb.
  assert (Hreach : FRAME_REACH - 16 = 52) by reflexivity.
  unfold receive_turn.
  destruct (nl_pid d =? 0).
  - assert (Hsmall : bcount d < 2 ^ 32 - 3)
      by (unfold RCVBUF_SIZE, CONNECTOR_MAX_MSG_SIZE in Hcount; lia).
    pose proof (frame_loop_tame fl fs (rcvbuf d) (S (Z.to_nat (bcount d)))
                  0 (bcount d) w Hb ltac:(lia) Hsmall ltac:(lia)) as H.
    unfold run_sat in H. rewrite Hreach in H.
    destruct (frame_loop _ fl fs (rcvbuf d) 0 (bcount d) w) as [[] w' | f w'];
      cbn [world_of].
    + destruct H as [Hb' Hs]. split; [| intros _; exact Hb'].
      eapply reads_span_weaken; [| | exact Hs]; lia.
    + destruct H as [Hs Ht]. split.
      * eapply reads_span_weaken; [| | exact Hs]; lia.
      * intro Hfree. destruct Ht as [E | (off & n & E & Hnone & [Hlo Hhi])];
          [exact E |].
        exfalso. cbn [fst snd] in Hlo, Hhi.
        destruct (rcv_load_in_range (rcvbuf d) off n Hlo) as [v Hv]; [lia |].
        congruence.
  - cbn [world_of ret]. split; [now apply reads_span_refl | intros _; exact Hb].
Qed.

(* ------------------------------------------------------------------ *)
(** * The layout of the frames that are dispatched *)

Lemma NLMSG_ALIGN_mod4 (len : Z) :
  0 <= len < 2 ^ 32 - 3 -> NLMSG_ALIGN len mod 4 = 0.
Proof.
  intros H. unfold NLMSG_ALIGN.
  change (Z.lnot (4 - 1) mod 2 ^ 32) with (2 ^ 32 - 4).
  rewrite (Z.mod_small (len + 4 - 1)) by lia.
  rewrite land_clear_low2 by lia.
  rewrite Z.mul_comm. apply Z.mod_mul. lia.
Qed.

Lemma frame_walk_layout (buf : list byte) (pos remain : Z) (frames : list Z) :
  frame_walk buf pos remain frames ->
  remain < 2 ^ 32 - 3 -> pos mod 4 = 0 ->
  Forall (fun h => pos <= h /\ h mod 4 = 0 /\ ends_before buf h (pos + remain)) frames
  /\ Sorted.StronglySorted (ends_before buf) frames
  /\ 16 * Z.of_nat (length frames) <= Z.max 0 remain.
Proof.
  induction 1 as [pos remain Hno | pos remain len rest Hok Hw IH]; intros Hr Hal.
  - split; [constructor |]. split; [constructor | simpl; lia].
  - pose proof (frame_ok_align _ _ _ _ Hok Hr) as Ha.
    destruct Hok as (H1 & H2 & H3). unfold sizeof_nlmsghdr in *.
    assert (Hal' : (pos + NLMSG_ALIGN len) mod 4 = 0).
    { rewrite Z.add_mod, Hal, NLMSG_ALIGN_mod4 by lia. reflexivity. }
    destruct (IH ltac:(lia) Hal') as (Hall & Hsorted & Hcount).
    split; [| split].
    + constructor.
      * split; [lia |]. split; [exact Hal |].
        exists len. unfold sizeof_nlmsghdr. repeat split; [assumption | lia | lia].
      * eapply Forall_impl; [| exact Hall].
        intros h (Hh & Hm & l & Hl & Hl1 & Hl2). split; [lia |]. split; [exact Hm |].
        exists l. repeat split; [assumption | assumption | lia].
    + constructor; [exact Hsorted |].
      eapply Forall_impl; [| exact Hall].
      intros h (Hh & _). exists len. unfold sizeof_nlmsghdr.
      repeat split; [assumption | lia | lia].
    + cbn [length]. rewrite Nat2Z.inj_succ. lia.
Qed.

(** X6.  The frames that a turn of the receive loop dispatches start at
    offsets that are multiples of four, each ends by its declared
    length before every later one starts and within the received bytes,
    and there is at most one frame for every 16 bytes received. *)
Theorem dispatched_frames_layout (fl : filter_flags) (fs : procfs)
        (d : datagram) (w : world) :
  nl_pid d = 0 ->
  received d ->
  exists frames,
    similar (receive_turn fl fs d w)
            (for_each (dispatch_nl fl fs (rcvbuf d)) frames w)
    /\ Forall (fun h => 0 <= h /\ h mod 4 = 0
                        /\ ends_before (rcvbuf d) h (bcount d)) frames
    /\ Sorted.StronglySorted (ends_before (rcvbuf d)) frames
    /\ 16 * Z.of_nat (length frames) <= Z.max 0 (bcount d).
Proof.
  intros Hk [Hlen Hcount].
  assert (Hsmall : Z.of_nat (length (rcvbuf d)) < 2 ^ 32 - 3)
    by (rewrite Hlen; unfold RCVBUF_SIZE, CONNECTOR_MAX_MSG_SIZE; lia).
  assert (Hr : bcount d < 2 ^ 32 - 3) by lia.
  destruct (frame_walk_exists (rcvbuf d) (S (Z.to_nat (bcount d))) 0 (bcount d))
    as [frames Hw]; [lia | exact Hr |].
  exists frames. split.
  - unfold receive_turn. rewrite Hk. cbn [Z.eqb].
    apply (frame_loop_follows_walk (rcvbuf d) Hsmall fl fs _ _ _ Hw);
      [lia | lia | lia | apply same_visible_refl].
  - exact (frame_walk_layout (rcvbuf d) 0 (bcount d) frames Hw Hr eq_refl).
Qed.

(* ------------------------------------------------------------------ *)
(** * Events that are not reported *)

(** X7.  A process event whose discriminant is neither PROC_EVENT_FORK
    nor PROC_EVENT_EXEC is dropped after the read of the discriminant,
    for all values of the flags: nothing is printed, no lookup is made,
    no further byte of the event is read. *)
Theorem other_events_dropped (fl : filter_flags) (fs : procfs)
        (buf : list byte) (hdr : Z) (w : world) (what : Z) :
  channel_at buf hdr = Some (CN_IDX_PROC, CN_VAL_PROC) ->
  rcv_load buf (hdr + off_cn_data + off_what) 4 = Some what ->
  what <> PROC_EVENT_FORK -> what <> PROC_EVENT_EXEC ->
  dispatch_nl_cn fl fs buf hdr w
  = Ok tt (logged w [(hdr + off_id_idx, 4%nat); (hdr + off_id_val, 4%nat);
                     (hdr + off_cn_data + off_what, 4%nat)]).
Proof.
  intros Hch Hwhat Hf He.
  rewrite (dispatch_nl_cn_proc fl fs buf hdr w Hch).
  unfold dispatch_proc_event.
  rewrite (bind_rd_u32 _ _ _ _ _ Hwhat).
  apply Z.eqb_neq in Hf, He. rewrite Hf, He.
  unfold ret, logged. cbn [gl stdout rd_log].
  now rewrite <- !app_assoc.
Qed.

(* ------------------------------------------------------------------ *)
(** * The start of main *)

Lemma strrchr_none (s : list byte) (c : byte) :
  strrchr s c = None -> ~ In c s.
Proof.
  induction s as [|b s IH]; cbn [strrchr]; [intros _ [] |].
  destruct (strrchr s c); [discriminate |].
  destruct (Byte.eqb b c) eqn:E; [discriminate |].
  intros _ [-> | Hin].
  - rewrite (@Byte.byte_dec_lb c c eq_refl) in E. discriminate.
  - now apply IH.
Qed.

Lemma strrchr_some (s r : list byte) (c : byte) :
  strrchr s c = Some r ->
  exists pre base, s = pre ++ c :: base /\ ~ In c base /\ r = c :: base.
Proof.
  revert r. induction s as [|b s IH]; cbn [strrchr]; intros r; [discriminate |].
  destruct (strrchr s c) as [r'|] eqn:E.
  - intro H. injection H as <-.
    destruct (IH r' eq_refl) as (pre & base & -> & Hno & ->).
    exists (b :: pre), base. now repeat split.
  - destruct (Byte.eqb b c) eqn:Eb; [| discriminate].
    intro H. injection H as <-.
    apply Byte.byte_dec_bl in Eb. subst b.
    exists [], s. split; [reflexivity |]. split; [now apply strrchr_none | reflexivity].
Qed.

(** X8.  The name main uses in its messages is argv[0] itself when it
    holds no slash, and otherwise the part of argv[0] from its last
    slash on, the slash included. *)
Theorem called_of_spec (argv0 : list byte) :
  (~ In "/"%byte argv0 /\ called_of argv0 = argv0)
  \/ (exists pre base,
        argv0 = pre ++ "/"%byte :: base
        /\ ~ In "/"%byte base
        /\ called_of argv0 = "/"%byte :: base).
Proof.
  unfold called_of.
  destruct (strrchr argv0 "/"%byte) as [r|] eqn:E.
  - right. destruct (strrchr_some _ _ _ E) as (pre & base & H1 & H2 & H3).
    exists pre, base. now repeat split.
  - left. split; [now apply strrchr_none | reflexivity].
Qed.

Lemma usage_is (A : Type) (arg0 err : list byte) :
  @usage A arg0 err = Exits 1 (err ++ usage_text arg0).
Proof. reflexivity. Qed.

Lemma is_mode_cases (o : Z) :
  is_mode o = true -> o = opt_e \/ o = opt_f \/ o = opt_t.
Proof.
  unfold is_mode. intro H.
  apply orb_true_iff in H as [H | H]; [apply orb_true_iff in H as [H | H] |];
    apply Z.eqb_eq in H; auto.
Qed.

(** The loop over the options, from any value of the flags. *)
Lemma option_loop_spec (called : list byte) (opts : list Z) :
  forall fl err,
    option_loop called opts fl err
    = match first_other (until_end opts) with
      | Some o =>
          Exits 1 (err ++ (if o =? opt_h then [] else invalid_text called o)
                       ++ usage_text called)
      | None =>
          Proceeds
            (mkFlags
               (if existsb (Z.eqb opt_e) (until_end opts) then 1 else execflag fl)
               (if existsb (Z.eqb opt_f) (until_end opts) then 1 else forkflag fl)
               (if existsb (Z.eqb opt_t) (until_end opts) then 1 else threadflag fl))
            err
      end.
Proof.
  induction opts as [|o opts IH]; intros fl err.
  - destruct fl; reflexivity.
  - cbn [option_loop until_end].
    destruct (o =? -1) eqn:Eend; [destruct fl; reflexivity |].
    unfold first_other. cbn [find]. fold (first_other (until_end opts)).
    cbn [existsb].
    destruct (o =? opt_e) eqn:Ee.
    { apply Z.eqb_eq in Ee. subst o. rewrite IH.
      change (is_mode opt_e) with true. cbn [negb].
      destruct (first_other (until_end opts)); [reflexivity |].
      cbn [execflag forkflag threadflag].
      change (opt_e =? opt_e) with true. change (opt_f =? opt_e) with false.
      change (opt_t =? opt_e) with false. cbn [orb].
      destruct (existsb (Z.eqb opt_e) (until_end opts)); reflexivity. }
    destruct (o =? opt_f) eqn:Ef.
    { apply Z.eqb_eq in Ef. subst o. rewrite IH.
      change (is_mode opt_f) with true. cbn [negb].
      destruct (first_other (until_end opts)); [reflexivity |].
      cbn [execflag forkflag threadflag].
      change (opt_e =? opt_f) with false. change (opt_f =? opt_f) with true.
      change (opt_t =? opt_f) with false. cbn [orb].
      destruct (existsb (Z.eqb opt_f) (until_end opts)); reflexivity. }
    destruct (o =? opt_t) eqn:Et.
    { apply Z.eqb_eq in Et. subst o. rewrite IH.
      change (is_mode opt_t) with true. cbn [negb].
      destruct (first_other (until_end opts)); [reflexivity |].
      cbn [execflag forkflag threadflag].
      change (opt_e =? opt_t) with false. change (opt_f =? opt_t) with false.
      change (opt_t =? opt_t) with true. cbn [orb].
      destruct (existsb (Z.eqb opt_t) (until_end opts)); reflexivity. }
    unfold is_mode. rewrite Ee, Ef, Et. cbn [orb negb].
    rewrite usage_is. unfold invalid_text.
    destruct (o =? opt_h); [reflexivity |].
    now rewrite <- !app_assoc.
Qed.

Lemma main_options_eq (argv0 : list byte) (opts : list Z) :
  let given := until_end opts in
  let called := called_of argv0 in
  main_options argv0 opts
  = match first_other given with
    | Some o =>
        Exits 1 ((if o =? opt_h then [] else invalid_text called o)
                 ++ usage_text called)
    | None =>
        if (seen opt_e given =? 0) && (seen opt_f given =? 0)
        then Exits 1 (missing_text called ++ usage_text called)
        else Proceeds (mkFlags (seen opt_e given) (seen opt_f given)
                               (seen opt_t given)) []
    end.
Proof.
  intros given called. unfold main_options. fold called.
  rewrite option_loop_spec. fold given.
  destruct (first_other given); [reflexivity |].
  cbn [execflag forkflag threadflag no_flags]. fold (seen opt_e given).
  fold (seen opt_f given). fold (seen opt_t given).
  destruct ((seen opt_e given =? 0) && (seen opt_f given =? 0)); reflexivity.
Qed.


(** X9.  The options decide the start as follows.  If getopt_long
    returns, before its first -1, a value other than 'e', 'f' and 't',
    main exits with status 1 at the first such value, after the usage
    text, preceded by the line on the invalid option unless the value is
    'h'.  Otherwise each flag is 1 if its option was given, any number
    of times and in any order, and 0 if not; main goes on if execflag or
    forkflag is set, and exits with status 1 after the line on the
    missing mode and the usage text if neither is. *)
Theorem main_options_spec (argv0 : list byte) (opts : list Z) :
  let given := until_end opts in
  let called := called_of argv0 in
  main_options argv0 opts
  = match first_other given with
    | Some o =>
        Exits 1 ((if o =? opt_h then [] else invalid_text called o)
                 ++ usage_text called)
    | None =>
        if (seen opt_e given =? 0) && (seen opt_f given =? 0)
        then Exits 1 (missing_text called ++ usage_text called)
        else Proceeds (mkFlags (seen opt_e given) (seen opt_f given)
                               (seen opt_t given)) []
    end.
Proof.
  intros given called. unfold main_options. fold called.
  rewrite option_loop_spec. fold given.
  destruct (first_other given); [reflexivity |].
  cbn [execflag forkflag threadflag no_flags]. fold (seen opt_e given).
  fold (seen opt_f given). fold (seen opt_t given).
  destruct ((seen opt_e given =? 0) && (seen opt_f given =? 0)); reflexivity.
Qed.

Lemma le_bytes_round (n : nat) :
  forall z, length (le_bytes n z) = n
            /\ le_value (le_bytes n z) = z mod 256 ^ Z.of_nat n.
Proof.
  induction n as [|n IH]; intro z.
  - split; [reflexivity |]. cbn. now rewrite Z.mod_1_r.
  - cbn [le_bytes].
    pose proof (Z.mod_pos_bound z 256 ltac:(lia)) as Hm.
    destruct (Byte.of_N (Z.to_N (z mod 256))) as [b|] eqn:E.
    + apply Byte.to_of_N in E.
      assert (Hb : byte_val b = z mod 256) by (unfold byte_val; rewrite E; lia).
      destruct (IH (z / 256)) as [Hl Hv].
      split; [cbn [length]; now rewrite Hl |].
      cbn [le_value]. rewrite Hv, Hb.
      rewrite Nat2Z.inj_succ, Z.pow_succ_r by lia.
      rewrite Z.rem_mul_r by lia. reflexivity.
    + apply Byte.of_N_None_iff in E. lia.
Qed.

Lemma le_bytes_4 (z : Z) :
  exists b0 b1 b2 b3,
    le_bytes 4 z = [b0; b1; b2; b3] /\ le_value [b0; b1; b2; b3] = z mod 2 ^ 32.
Proof.
  destruct (le_bytes_round 4 z) as [Hl Hv].
  destruct (le_bytes 4 z) as [|b0 [|b1 [|b2 [|b3 [|b4 rest]]]]]; try discriminate.
  exists b0, b1, b2, b3. split; [reflexivity | exact Hv].
Qed.

(** X10.  The request that main hands to writev is one frame that passes
    the test of the receive loop: its declared length is the number of
    bytes sent, 40; it carries the pid of the process, the channel of
    the process events, and a connector payload of the declared four
    bytes holding PROC_CN_MCAST_LISTEN.  No byte of the uninitialised
    array padding is sent. *)
Theorem subscription_frame (mypid : Z) (padding : list byte) :
  let msg := subscription mypid padding in
  Z.of_nat (length msg) = NLMSG_LENGTH (sizeof_cn_msg + sizeof_cnop)
  /\ frame_ok msg 0 (Z.of_nat (length msg)) (Z.of_nat (length msg))
  /\ rcv_load msg (0 + off_nlmsg_type) 2 = Some NLMSG_DONE
  /\ rcv_load msg 12 4 = Some (mypid mod 2 ^ 32)
  /\ channel_at msg (NLMSG_DATA 0) = Some (CN_IDX_PROC, CN_VAL_PROC)
  /\ declared_len msg (NLMSG_DATA 0) = Some sizeof_cnop
  /\ rcv_load msg (NLMSG_DATA 0 + off_cn_data) 4 = Some PROC_CN_MCAST_LISTEN
  /\ NLMSG_DATA 0 + off_cn_data + sizeof_cnop = Z.of_nat (length msg)
  /\ msg = subscription mypid [].
Proof.
  intro msg. subst msg.
  assert (Hpad : subscription mypid padding = subscription mypid []).
  { unfold subscription, subscription_iov.
    change (Z.to_nat (NLMSG_LENGTH 0 - sizeof_nlmsghdr)) with 0%nat.
    reflexivity. }
  rewrite Hpad.
  destruct (le_bytes_4 mypid) as (b0 & b1 & b2 & b3 & Hb & Hv).
  assert (Hmsg : subscription mypid []
                 = le_bytes 4 40 ++ le_bytes 2 3 ++ le_bytes 2 0 ++ le_bytes 4 0
                   ++ [b0; b1; b2; b3]
                   ++ cn_msg_image 1 1 0 0 4 0 ++ le_bytes 4 1).
  { unfold subscription, subscription_iov, nlmsghdr_image.
    rewrite Hb. cbn [concat firstn]. now rewrite <- !app_assoc, app_nil_r. }
  rewrite Hmsg.
  split; [reflexivity |].
  split; [split; [vm_compute; discriminate |];
          split; [reflexivity | split; vm_compute; discriminate] |].
  split; [reflexivity |].
  split.
  { rewrite <- Hv. reflexivity. }
  split; [reflexivity |].
  split; [reflexivity |].
  split; [reflexivity |].
  split; reflexivity.
Qed.

Lemma ends_with_usage (pre arg0 : list byte) :
  exists body, pre ++ usage_text arg0 = body ++ nl.
Proof.
  unfold usage_text.
  exists (pre ++ lit "Usage:" ++ nl ++ lit "  " ++ arg0
              ++ lit " [-eft] [--exec] [--fork] [--thread]" ++ nl ++ nl
              ++ lit "Specify at least '--exec' or '--fork'").
  now rewrite <- !app_assoc.
Qed.

Lemma ends_with_perror (A : Type) (os : os_answers) (msg : string) (err : list byte) :
  exists body, @perror_exit A os msg err = Exits 1 (body ++ nl).
Proof.
  unfold perror_exit.
  exists (err ++ lit msg ++ lit ": " ++ strerror_text os).
  now rewrite <- !app_assoc.
Qed.

Lemma seen_values (o : Z) (given : list Z) : seen o given = 0 \/ seen o given = 1.
Proof. unfold seen. destruct (existsb (Z.eqb o) given); auto. Qed.

(** X11.  main reaches the receive loop exactly when every option is a
    mode option, --exec or --fork is among them, and socket, bind,
    writev and malloc succeed.  It then has written nothing to stderr,
    has bound the socket to its pid and the group CN_IDX_PROC, and has
    sent the request once.  In every other case it exits with status 1
    after a message on stderr that ends with a newline. *)
Theorem main_start_spec (argv0 : list byte) (opts : list Z) (os : os_answers) :
  let given := until_end opts in
  let goes :=
    first_other given = None
    /\ (seen opt_e given = 1 \/ seen opt_f given = 1)
    /\ socket_ret os <> -1 /\ bind_ret os = 0
    /\ writev_ret os <> -1 /\ malloc_null os = false in
  match main_start argv0 opts os with
  | Proceeds l err =>
      goes
      /\ err = []
      /\ launch_flags l = mkFlags (seen opt_e given) (seen opt_f given) (seen opt_t given)
      /\ bound_pid l = getpid_ret os mod 2 ^ 32
      /\ bound_groups l = CN_IDX_PROC
      /\ request l = subscription (getpid_ret os) []
  | Exits st err =>
      ~ goes /\ st = 1 /\ exists body, err = body ++ nl
  end.
Proof.
  intros given goes. subst goes. unfold main_start.
  rewrite main_options_eq. fold given.
  destruct (first_other given) as [o|] eqn:Efirst.
  { split; [intros (H & _); discriminate |]. split; [reflexivity |].
    apply ends_with_usage. }
  destruct (seen_values opt_e given) as [He | He],
           (seen_values opt_f given) as [Hf | Hf]; rewrite He, Hf; cbn [Z.eqb andb].
  { split; [intros (_ & [H | H] & _); discriminate |]. split; [reflexivity |].
    apply ends_with_usage. }
  all: destruct (Z.eqb_spec (socket_ret os) (-1)) as [Hs | Hs];
    [ destruct (ends_with_perror launch os "Unable to open a netlink socket!" [])
        as [body ->];
      split; [intros (_ & _ & H & _); contradiction |];
      split; [reflexivity | now exists body] |].
  all: destruct (Z.eqb_spec (bind_ret os) 0) as [Hb | Hb]; cbn [negb];
    [| destruct (ends_with_perror launch os "Unable to bind to the process connector!" [])
         as [body ->];
       split; [intros (_ & _ & _ & H & _); contradiction |];
       split; [reflexivity | now exists body] ].
  all: destruct (Z.eqb_spec (writev_ret os) (-1)) as [Hw | Hw];
    [ destruct (ends_with_perror launch os "Unable to listen to the process connector!" [])
        as [body ->];
      split; [intros (_ & _ & _ & _ & H & _); contradiction |];
      split; [reflexivity | now exists body] |].
  all: destruct (malloc_null os) eqn:Hm;
    [ destruct (ends_with_perror launch os "Unable to allocate a receive buffer!" [])
        as [body ->];
      split; [intros (_ & _ & _ & _ & _ & H); discriminate |];
      split; [reflexivity | now exists body] |].
  all: cbn [launch_flags bound_pid bound_groups request].
  all: split; [split; [reflexivity |]; split; [auto |]; auto |].
  all: split; [reflexivity |]; split; [reflexivity |]; split; [reflexivity |].
  all: split; [reflexivity |].
  all: unfold subscription, subscription_iov;
    change (Z.to_nat (NLMSG_LENGTH 0 - sizeof_nlmsghdr)) with 0%nat; reflexivity.
Qed.

(* ------------------------------------------------------------------ *)
(** * The further properties at concrete inputs *)

Example demo_longest_path :
  length (proc_path lowest_pid ++ [Byte.x00]) = 26%nat.
Proof. vm_compute. reflexivity. Qed.

Example demo_called :
  called_of (lit "/usr/bin/startmon") = lit "/startmon"
  /\ called_of (lit "startmon") = lit "startmon"
  /\ called_of (lit "bin/") = lit "/".
Proof. repeat split; vm_compute; reflexivity. Qed.

Example demo_help_exits_1 :
  main_options (lit "./startmon") [opt_e; opt_h]
  = Exits 1 (usage_text (lit "/startmon")).
Proof. vm_compute. reflexivity. Qed.

Lemma lookup_string_clean_witness :
  length (cmdlinebuf init_globals) = CMDLINE_SIZE
  /\ get_cmdline worker_fs 20 init_globals = Done worker_globals
  /\ c_string (cmdlinebuf worker_globals) = Some (lit "worker --id 1").
Proof.
  assert (Hsize : length (cmdlinebuf init_globals) = CMDLINE_SIZE)
    by (vm_compute; reflexivity).
  assert (Hrun : get_cmdline worker_fs 20 init_globals = Done worker_globals)
    by (vm_compute; reflexivity).
  split; [exact Hsize |]. split; [exact Hrun |].
  exact (proj1 (lookup_string_clean worker_fs 20 init_globals worker_globals Hsize Hrun)).
Defined.

Lemma procname_fits_witness :
  - 2 ^ 31 <= lowest_pid < 2 ^ 31
  /\ get_cmdline (fs_const OpenFails) lowest_pid init_globals = Done lowest_globals
  /\ procname lowest_globals = proc_path lowest_pid
  /\ (length (procname lowest_globals ++ [Byte.x00]) <= 26)%nat.
Proof.
  assert (Hid : - 2 ^ 31 <= lowest_pid < 2 ^ 31)
    by (split; [vm_compute; discriminate | reflexivity]).
  assert (Hrun : get_cmdline (fs_const OpenFails) lowest_pid init_globals
                 = Done lowest_globals) by (vm_compute; reflexivity).
  split; [exact Hid |]. split; [exact Hrun |].
  exact (procname_fits (fs_const OpenFails) lowest_pid init_globals lowest_globals
           Hid Hrun).
Defined.

Lemma dispatch_nl_effect_witness :
  buf_ok init_world
  /\ dispatch_nl fork_only worker_fs fork_buf 0 init_world = Ok tt fork_world
  /\ frame_effect init_world fork_world
  /\ dispatch_outcome worker_fs init_world fork_world.
Proof.
  assert (Hb : buf_ok init_world) by (vm_compute; reflexivity).
  assert (Hrun : dispatch_nl fork_only worker_fs fork_buf 0 init_world = Ok tt fork_world)
    by (vm_compute; reflexivity).
  split; [exact Hb |]. split; [exact Hrun |].
  exact (dispatch_nl_effect fork_only worker_fs fork_buf 0 init_world fork_world Hb Hrun).
Defined.

Lemma received_fork : received (mkDatagram 0 76 fork_buf).
Proof. split; [vm_compute; reflexivity | split; vm_compute; discriminate]. Qed.

Lemma received_two : Forall received two_datagrams.
Proof.
  repeat constructor; try (vm_compute; reflexivity); vm_compute; discriminate.
Qed.

Lemma receive_all_effect_witness :
  Forall received two_datagrams
  /\ buf_ok init_world
  /\ receive_all fork_only worker_fs two_datagrams init_world = Ok tt two_world
  /\ exists lines,
       Forall record_line lines
       /\ stdout two_world = stdout init_world ++ concat lines
       /\ 16 * Z.of_nat (length lines) <= total_received two_datagrams
       /\ (lookups (gl two_world) <= lookups (gl init_world) + length lines)%nat
       /\ buf_ok two_world.
Proof.
  assert (Hb : buf_ok init_world) by (vm_compute; reflexivity).
  assert (Hrun : receive_all fork_only worker_fs two_datagrams init_world
                 = Ok tt two_world) by (vm_compute; reflexivity).
  split; [exact received_two |]. split; [exact Hb |]. split; [exact Hrun |].
  exact (receive_all_effect fork_only worker_fs two_datagrams init_world two_world
           received_two Hb Hrun).
Defined.

Lemma receive_turn_memory_witness :
  received (mkDatagram 0 76 fork_buf)
  /\ buf_ok init_world
  /\ 76 + 52 <= RCVBUF_SIZE
  /\ match receive_turn fork_only worker_fs (mkDatagram 0 76 fork_buf) init_world with
     | Ok _ w' => buf_ok w'
     | Stuck f _ => f = CharWriteOutOfBounds CMDLINE_SIZE
     end.
Proof.
  assert (Hb : buf_ok init_world) by (vm_compute; reflexivity).
  assert (Hfree : 76 + 52 <= RCVBUF_SIZE) by (vm_compute; discriminate).
  split; [exact received_fork |]. split; [exact Hb |]. split; [exact Hfree |].
  exact (proj2 (receive_turn_memory fork_only worker_fs (mkDatagram 0 76 fork_buf)
                  init_world received_fork Hb) Hfree).
Defined.

Lemma dispatched_frames_layout_witness :
  nl_pid (mkDatagram 0 108 mixed_buf) = 0
  /\ received (mkDatagram 0 108 mixed_buf)
  /\ exists frames,
       similar (receive_turn fork_only worker_fs (mkDatagram 0 108 mixed_buf) init_world)
               (for_each (dispatch_nl fork_only worker_fs mixed_buf) frames init_world)
       /\ Forall (fun h => 0 <= h /\ h mod 4 = 0
                           /\ ends_before mixed_buf h 108) frames
       /\ Sorted.StronglySorted (ends_before mixed_buf) frames
       /\ 16 * Z.of_nat (length frames) <= Z.max 0 108.
Proof.
  assert (Hk : nl_pid (mkDatagram 0 108 mixed_buf) = 0) by reflexivity.
  assert (Hr : received (mkDatagram 0 108 mixed_buf)).
  { split; [vm_compute; reflexivity | split; vm_compute; discriminate]. }
  split; [exact Hk |]. split; [exact Hr |].
  exact (dispatched_frames_layout fork_only worker_fs (mkDatagram 0 108 mixed_buf)
           init_world Hk Hr).
Defined.

Lemma other_events_dropped_witness :
  channel_at exit_buf 16 = Some (CN_IDX_PROC, CN_VAL_PROC)
  /\ rcv_load exit_buf (16 + off_cn_data + off_what) 4 = Some 2147483648
  /\ dispatch_nl_cn (mkFlags 1 1 1) worker_fs exit_buf 16 init_world
     = Ok tt (logged init_world
                [(16 + off_id_idx, 4%nat); (16 + off_id_val, 4%nat);
                 (16 + off_cn_data + off_what, 4%nat)]).
Proof.
  assert (Hch : channel_at exit_buf 16 = Some (CN_IDX_PROC, CN_VAL_PROC))
    by (vm_compute; reflexivity).
  assert (Hwhat : rcv_load exit_buf (16 + off_cn_data + off_what) 4 = Some 2147483648)
    by (vm_compute; reflexivity).
  assert (Hf : 2147483648 <> PROC_EVENT_FORK) by (vm_compute; discriminate).
  assert (He : 2147483648 <> PROC_EVENT_EXEC) by (vm_compute; discriminate).
  split; [exact Hch |]. split; [exact Hwhat |].
  exact (other_events_dropped (mkFlags 1 1 1) worker_fs exit_buf 16 init_world
           2147483648 Hch Hwhat Hf He).
Defined.
